(** * truyGoc: the SupplyChain service and its existence-check endpoint

    A shallow embedding of the class [SupplyChain] (the module the server
    imports as [./services/chain]) and of the [app.get('/')] handler of
    the server, together with the JavaScript built-ins they call
    ([JSON.stringify], [JSON.parse], [Buffer], [Date]).  Line numbers
    refer to [src/apps/web/vite.config.ts], which holds both modules and,
    before them, the database configuration.

    - JavaScript strings are sequences of UTF-16 code units ([jsstring]).
    - [Buffer]s are sequences of bytes.
    - The Aptos SDK is an external collaborator: its client methods are
      the fields of a class ([AptosSDK]) and every call to it is logged
      in a trace, so that "nothing was submitted" is a statement about
      the trace.  What the client decides before it sends a request (the
      form of a function id) is part of the model.
    - [async] methods run sequentially; an [await] of a rejected promise
      is a [Throw].
    - The casts of the source ([as string], [as ProductMetadata]) check
      nothing at run time, so a value keeps the shape it arrived with. *)

From Stdlib Require Import ZArith List String Ascii Bool Lia.
Import ListNotations.
Local Open Scope Z_scope.

(** ** JavaScript strings *)

(** A string is its sequence of UTF-16 code units (each in [0, 65535]). *)
Definition jsstring := list Z.

(** Buffers hold bytes (each in [0, 255]). *)
Definition Buffer := list Z.

(** An ASCII literal as a JavaScript string. *)
Definition js (s : string) : jsstring :=
  map (fun a => Z.of_N (N_of_ascii a)) (list_ascii_of_string s).

Fixpoint str_eqb (a b : jsstring) : bool :=
  match a, b with
  | [], [] => true
  | x :: a', y :: b' => (x =? y) && str_eqb a' b'
  | _, _ => false
  end.

(** [s.startsWith(p)] *)
Fixpoint startsWith (p s : jsstring) : bool :=
  match p, s with
  | [], _ => true
  | x :: p', y :: s' => (x =? y) && startsWith p' s'
  | _ :: _, [] => false
  end.

(** [s.substring(n)] for a non-negative [n]. *)
Definition substring_from (n : nat) (s : jsstring) : jsstring := skipn n s.

(** [String.prototype.replace(pattern, replacement)] with string arguments:
    the first occurrence only. *)
Fixpoint replace_first (pat rep s : jsstring) : jsstring :=
  if startsWith pat s then rep ++ skipn (List.length pat) s
  else match s with
       | [] => []
       | c :: s' => c :: replace_first pat rep s'
       end.

(** [s.split(sep)] for a non-empty [sep]: the pieces between the
    occurrences of [sep], found from left to right, none overlapping
    another.  [skip] counts the characters of a separator still to pass,
    [piece] holds the current piece in reverse. *)
Fixpoint split_from (sep : jsstring) (skip : nat) (piece s : jsstring) : list jsstring :=
  match s with
  | [] => [rev piece]
  | c :: s' =>
      match skip with
      | S k => split_from sep k piece s'
      | O =>
          if startsWith sep s
          then rev piece :: split_from sep (List.length sep - 1) [] s'
          else split_from sep 0 (c :: piece) s'
      end
  end.

Definition split (sep s : jsstring) : list jsstring := split_from sep 0 [] s.

(** Decimal digits of a natural number, most significant first. *)
Fixpoint digits_fuel (fuel : nat) (n : Z) (acc : jsstring) : jsstring :=
  match fuel with
  | O => acc
  | S f =>
      let acc' := (48 + n mod 10) :: acc in
      if n / 10 =? 0 then acc' else digits_fuel f (n / 10) acc'
  end.

Definition decimal (n : Z) : jsstring :=
  digits_fuel (S (Z.to_nat (Z.log2 n))) n [].

(** [String(n).padStart(w, '0')] *)
Definition pad0 (w : nat) (n : Z) : jsstring :=
  let d := decimal n in
  repeat 48 (w - List.length d) ++ d.

(** ** Errors and results *)

Inductive Exn : Type :=
| Error (message : jsstring)       (* [new Error(message)] *)
| TypeError                        (* property access on [undefined] *)
| SyntaxError                      (* [JSON.parse] on malformed text *)
| ApiError (message : jsstring).   (* whatever the Aptos client throws *)

Inductive Outcome (A : Type) : Type :=
| Return (a : A)
| Throw (e : Exn).
Arguments Return {A} a.
Arguments Throw {A} e.

(** ** Buffer: hex and UTF-8 *)

Definition hex_digit (n : Z) : Z :=
  if n <? 10 then 48 + n else 87 + n.   (* '0'..'9', 'a'..'f' *)

(** [buf.toString('hex')] *)
Definition Buffer_toString_hex (b : Buffer) : jsstring :=
  flat_map (fun x => [hex_digit (Z.shiftr x 4); hex_digit (Z.land x 15)]) b.

Definition unhex (c : Z) : option Z :=
  if (48 <=? c) && (c <=? 57) then Some (c - 48)
  else if (97 <=? c) && (c <=? 102) then Some (c - 87)
  else if (65 <=? c) && (c <=? 70) then Some (c - 55)
  else None.

(** [Buffer.from(s, 'hex')]: pairs of hex digits are decoded until the
    first pair that is not two hex digits; a trailing single character is
    dropped.  It never throws.  The decoder looks at the low byte of each
    code unit only, so U+0137 counts as the digit 7 (0x37). *)
Fixpoint Buffer_from_hex (s : jsstring) : Buffer :=
  match s with
  | a :: b :: s' =>
      match unhex (Z.land a 0xFF), unhex (Z.land b 0xFF) with
      | Some x, Some y => Z.lor (Z.shiftl x 4) y :: Buffer_from_hex s'
      | _, _ => []
      end
  | _ => []
  end.

Definition is_high_surrogate (c : Z) : bool := (0xD800 <=? c) && (c <=? 0xDBFF).
Definition is_low_surrogate (c : Z) : bool := (0xDC00 <=? c) && (c <=? 0xDFFF).
Definition is_surrogate (c : Z) : bool := (0xD800 <=? c) && (c <=? 0xDFFF).

Definition utf8_of_code_point (cp : Z) : Buffer :=
  if cp <? 0x80 then [cp]
  else if cp <? 0x800 then
    [Z.lor 0xC0 (Z.shiftr cp 6); Z.lor 0x80 (Z.land cp 0x3F)]
  else if cp <? 0x10000 then
    [Z.lor 0xE0 (Z.shiftr cp 12);
     Z.lor 0x80 (Z.land (Z.shiftr cp 6) 0x3F);
     Z.lor 0x80 (Z.land cp 0x3F)]
  else
    [Z.lor 0xF0 (Z.shiftr cp 18);
     Z.lor 0x80 (Z.land (Z.shiftr cp 12) 0x3F);
     Z.lor 0x80 (Z.land (Z.shiftr cp 6) 0x3F);
     Z.lor 0x80 (Z.land cp 0x3F)].

(** [Buffer.from(s)] (encoding 'utf8'): surrogate pairs become one code
    point, a lone surrogate becomes U+FFFD. *)
Fixpoint Buffer_from_utf8 (s : jsstring) : Buffer :=
  match s with
  | [] => []
  | c :: s' =>
      if is_high_surrogate c then
        match s' with
        | d :: s'' =>
            if is_low_surrogate d then
              utf8_of_code_point
                (0x10000 + Z.shiftl (c - 0xD800) 10 + (d - 0xDC00))
                ++ Buffer_from_utf8 s''
            else utf8_of_code_point 0xFFFD ++ Buffer_from_utf8 s'
        | [] => utf8_of_code_point 0xFFFD
        end
      else if is_low_surrogate c then
        utf8_of_code_point 0xFFFD ++ Buffer_from_utf8 s'
      else utf8_of_code_point c ++ Buffer_from_utf8 s'
  end.

(** The code units of one decoded code point. *)
Definition code_units (cp : Z) : jsstring :=
  if cp <? 0x10000 then [cp]
  else [0xD800 + Z.shiftr (cp - 0x10000) 10;
        0xDC00 + Z.land (cp - 0x10000) 0x3FF].

(** State of the UTF-8 decoder in the middle of a multi-byte sequence:
    continuation bytes still needed, the code point so far, and the range
    allowed for the next byte. *)
Record utf8_pending := {
  needed : nat; code_point : Z; lower : Z; upper : Z }.

(** A byte seen with no sequence pending: what it emits and the state it
    leaves. *)
Definition utf8_lead (b : Z) : jsstring * option utf8_pending :=
  if b <? 0x80 then ([b], None)
  else if (0xC2 <=? b) && (b <=? 0xDF) then
    ([], Some {| needed := 1; code_point := Z.land b 0x1F; lower := 0x80; upper := 0xBF |})
  else if (0xE0 <=? b) && (b <=? 0xEF) then
    ([], Some {| needed := 2; code_point := Z.land b 0xF;
                 lower := if b =? 0xE0 then 0xA0 else 0x80;
                 upper := if b =? 0xED then 0x9F else 0xBF |})
  else if (0xF0 <=? b) && (b <=? 0xF4) then
    ([], Some {| needed := 3; code_point := Z.land b 0x7;
                 lower := if b =? 0xF0 then 0x90 else 0x80;
                 upper := if b =? 0xF4 then 0x8F else 0xBF |})
  else ([0xFFFD], None).

(** [buf.toString('utf8')]: ill-formed sequences are replaced by U+FFFD
    (one per maximal ill-formed prefix); it never throws. *)
Fixpoint utf8_decode (st : option utf8_pending) (b : Buffer) : jsstring :=
  match b with
  | [] => match st with Some _ => [0xFFFD] | None => [] end
  | x :: b' =>
      match st with
      | None => let '(out, st') := utf8_lead x in out ++ utf8_decode st' b'
      | Some p =>
          if (lower p <=? x) && (x <=? upper p) then
            let cp := Z.lor (Z.shiftl (code_point p) 6) (Z.land x 0x3F) in
            match needed p with
            | S (S n) =>
                utf8_decode
                  (Some {| needed := S n; code_point := cp; lower := 0x80; upper := 0xBF |}) b'
            | _ => code_units cp ++ utf8_decode None b'
            end
          else
            let '(out, st') := utf8_lead x in
            0xFFFD :: out ++ utf8_decode st' b'
      end
  end.

Definition Buffer_toString_utf8 (b : Buffer) : jsstring := utf8_decode None b.

(** ** Date *)

(** A [Date] object is its time value: milliseconds since the epoch (an
    integer, within 8.64e15 of zero), or [None] for the NaN time value of
    an invalid date. *)
Definition Date := option Z.

Definition msPerDay : Z := 86400000.

(** Year, month and day of a day number counted from 1970-01-01
    (proleptic Gregorian calendar). *)
Definition civil_from_days (day : Z) : Z * Z * Z :=
  let z := day + 719468 in
  let era := z / 146097 in
  let doe := z - era * 146097 in
  let yoe := (doe - doe / 1460 + doe / 36524 - doe / 146096) / 365 in
  let doy := doe - (365 * yoe + yoe / 4 - yoe / 100) in
  let mp := (5 * doy + 2) / 153 in
  let d := doy - (153 * mp + 2) / 5 + 1 in
  let m := if mp <? 10 then mp + 3 else mp - 9 in
  let y := yoe + era * 400 + (if m <=? 2 then 1 else 0) in
  (y, m, d).

(** [Date.prototype.toISOString] for a finite time value:
    [YYYY-MM-DDTHH:mm:ss.sssZ], with a sign and six digits for years
    outside 0..9999. *)
Definition Date_toISOString (t : Z) : jsstring :=
  let '(y, m, d) := civil_from_days (t / msPerDay) in
  let ms := t mod msPerDay in
  let year :=
    if (0 <=? y) && (y <=? 9999) then pad0 4 y
    else (if y <? 0 then js "-" else js "+") ++ pad0 6 (Z.abs y) in
  year ++ js "-" ++ pad0 2 m ++ js "-" ++ pad0 2 d ++ js "T"
       ++ pad0 2 (ms / 3600000) ++ js ":" ++ pad0 2 (ms / 60000 mod 60)
       ++ js ":" ++ pad0 2 (ms / 1000 mod 60) ++ js "." ++ pad0 3 (ms mod 1000)
       ++ js "Z".

(** [Date.prototype.toJSON]: [null] for an invalid date, otherwise the ISO
    string. *)
Definition Date_toJSON (d : Date) : option jsstring :=
  option_map Date_toISOString d.

(** ** JavaScript values *)

(** The values that reach [JSON.stringify] and leave [JSON.parse].  A
    number is kept as the exact decimal [mantissa * 10 ^ exponent] of its
    literal (rounding to a double and the sign of zero are not modelled;
    product metadata holds no number).  The properties of an object are
    listed in enumeration order. *)
#[warnings="-register-all"] Inductive JsValue : Type :=
| JNull
| JBool (b : bool)
| JNumber (mantissa exponent : Z)
| JString (s : jsstring)
| JDate (t : Date)
| JArray (elements : list JsValue)
| JObject (properties : list (jsstring * JsValue)).

(** ** JSON.stringify *)

Definition hex4 (c : Z) : jsstring :=
  [hex_digit (Z.shiftr c 12); hex_digit (Z.land (Z.shiftr c 8) 15);
   hex_digit (Z.land (Z.shiftr c 4) 15); hex_digit (Z.land c 15)].

(** The escape of one code unit that is not part of a surrogate pair. *)
Definition quote_unit (c : Z) : jsstring :=
  if c =? 0x22 then [0x5C; 0x22]
  else if c =? 0x5C then [0x5C; 0x5C]
  else if c =? 0x08 then 0x5C :: js "b"
  else if c =? 0x0C then 0x5C :: js "f"
  else if c =? 0x0A then 0x5C :: js "n"
  else if c =? 0x0D then 0x5C :: js "r"
  else if c =? 0x09 then 0x5C :: js "t"
  else if (c <? 0x20) || is_surrogate c then 0x5C :: js "u" ++ hex4 c
  else [c].

Fixpoint quote_units (s : jsstring) : jsstring :=
  match s with
  | [] => []
  | c :: s' =>
      if is_high_surrogate c then
        match s' with
        | d :: s'' =>
            if is_low_surrogate d then c :: d :: quote_units s''
            else quote_unit c ++ quote_units s'
        | [] => quote_unit c
        end
      else quote_unit c ++ quote_units s'
  end.

(** [QuoteJSONString]: control characters, the quote, the backslash and
    lone surrogates are escaped; a surrogate pair is copied. *)
Definition QuoteJSONString (s : jsstring) : jsstring :=
  [0x22] ++ quote_units s ++ [0x22].

Fixpoint join (sep : jsstring) (l : list jsstring) : jsstring :=
  match l with
  | [] => []
  | [x] => x
  | x :: l' => x ++ sep ++ join sep l'
  end.

(** [SerializeJSONObject] on properties whose values are serialized
    already (no gap, no indentation). *)
Definition SerializeJSONObject (members : list (jsstring * jsstring)) : jsstring :=
  js "{" ++ join (js ",") (map (fun kv => QuoteJSONString (fst kv) ++ js ":" ++ snd kv) members)
         ++ js "}".

(** ** JSON.parse *)

Definition is_ws (c : Z) : bool :=
  (c =? 0x20) || (c =? 0x09) || (c =? 0x0A) || (c =? 0x0D).

Definition is_digit (c : Z) : bool := (48 <=? c) && (c <=? 57).

Fixpoint skip_ws (s : jsstring) : jsstring :=
  match s with
  | c :: s' => if is_ws c then skip_ws s' else s
  | [] => []
  end.

(** The character after a backslash, other than [u]. *)
Definition unescape (e : Z) : option Z :=
  if e =? 0x22 then Some 0x22
  else if e =? 0x5C then Some 0x5C
  else if e =? 0x2F then Some 0x2F
  else if e =? 98 then Some 0x08
  else if e =? 102 then Some 0x0C
  else if e =? 110 then Some 0x0A
  else if e =? 114 then Some 0x0D
  else if e =? 116 then Some 0x09
  else None.

Definition unhex4 (a b c d : Z) : option Z :=
  match unhex a, unhex b, unhex c, unhex d with
  | Some x, Some y, Some z, Some w => Some (((x * 16 + y) * 16 + z) * 16 + w)
  | _, _, _, _ => None
  end.

Definition cons_unit (c : Z) (r : option (jsstring * jsstring)) :
  option (jsstring * jsstring) :=
  match r with
  | Some (str, rest) => Some (c :: str, rest)
  | None => None
  end.

(** A string literal after its opening quote: the string and the input
    left after the closing quote. *)
Fixpoint parse_string (s : jsstring) : option (jsstring * jsstring) :=
  match s with
  | [] => None
  | c :: s' =>
      if c =? 0x22 then Some ([], s')
      else if c =? 0x5C then
        match s' with
        | [] => None
        | e :: s'' =>
            if e =? 117 then
              match s'' with
              | h1 :: h2 :: h3 :: h4 :: s3 =>
                  match unhex4 h1 h2 h3 h4 with
                  | Some u => cons_unit u (parse_string s3)
                  | None => None
                  end
              | _ => None
              end
            else
              match unescape e with
              | Some u => cons_unit u (parse_string s'')
              | None => None
              end
        end
      else if c <? 0x20 then None
      else cons_unit c (parse_string s')
  end.

(** A run of digits: its value on top of [acc], its length, the rest. *)
Fixpoint take_digits (s : jsstring) (acc : Z) (n : Z) : Z * Z * jsstring :=
  match s with
  | c :: s' =>
      if is_digit c then take_digits s' (10 * acc + (c - 48)) (n + 1)
      else (acc, n, s)
  | [] => (acc, n, [])
  end.

(** The fraction of a number, after the integer part [ip]. *)
Definition parse_fraction (ip : Z) (s : jsstring) : option (Z * Z * jsstring) :=
  match s with
  | c :: r =>
      if c =? 46 then
        let '(v, n, r') := take_digits r ip 0 in
        if n =? 0 then None else Some (v, n, r')
      else Some (ip, 0, s)
  | [] => Some (ip, 0, [])
  end.

(** The sign of an exponent. *)
Definition parse_sign (s : jsstring) : Z * jsstring :=
  match s with
  | x :: r => if x =? 43 then (1, r) else if x =? 45 then (-1, r) else (1, s)
  | [] => (1, s)
  end.

Definition parse_exponent (s : jsstring) : option (Z * jsstring) :=
  match s with
  | c :: r =>
      if (c =? 101) || (c =? 69) then
        let '(sign, r1) := parse_sign r in
        let '(v, n, r2) := take_digits r1 0 0 in
        if n =? 0 then None else Some (sign * v, r2)
      else Some (0, s)
  | [] => Some (0, [])
  end.

(** The minus sign of a number. *)
Definition parse_minus (s : jsstring) : bool * jsstring :=
  match s with
  | c :: r => if c =? 45 then (true, r) else (false, s)
  | [] => (false, s)
  end.

(** The integer part of a number that starts with the digit [d]: a
    single zero, or a run of digits. *)
Definition parse_integer (d : Z) (r : jsstring) : Z * jsstring :=
  if d =? 48 then (0, r)
  else let '(v, _, r') := take_digits (d :: r) 0 0 in (v, r').

(** A number literal: an optional minus sign, an integer part (a single
    zero, or digits that do not start with zero), an optional fraction (a
    dot and at least one digit) and an optional exponent ([e] or [E], an
    optional sign and at least one digit). *)
Definition parse_number (s : jsstring) : option (JsValue * jsstring) :=
  let '(neg, s1) := parse_minus s in
  match s1 with
  | d :: r =>
      if is_digit d then
        let '(ip, s2) := parse_integer d r in
        match parse_fraction ip s2 with
        | Some (m, fe, s3) =>
            match parse_exponent s3 with
            | Some (ex, s4) =>
                Some (JNumber (if neg then - m else m) (ex - fe), s4)
            | None => None
            end
        | None => None
        end
      else None
  | [] => None
  end.

(** Array-index property keys ("0", "1", ... up to 2^32 - 2) are
    enumerated first, in ascending order; the other keys follow in
    creation order. *)
Definition array_index (k : jsstring) : option Z :=
  match k with
  | [] => None
  | c :: r =>
      if forallb is_digit k && negb ((c =? 48) && negb (Nat.eqb (List.length r) 0))
         && Nat.leb (List.length k) 10
      then let '(v, _, _) := take_digits k 0 0 in
           if v <=? 4294967294 then Some v else None
      else None
  end.

(** A new property [k] goes before the first property that follows it in
    enumeration order. *)
Fixpoint insert_property (k : jsstring) (v : JsValue)
    (props : list (jsstring * JsValue)) : list (jsstring * JsValue) :=
  match props with
  | [] => [(k, v)]
  | (k', v') :: props' =>
      match array_index k, array_index k' with
      | Some i, Some i' =>
          if i <? i' then (k, v) :: props else (k', v') :: insert_property k v props'
      | Some _, None => (k, v) :: props
      | None, _ => (k', v') :: insert_property k v props'
      end
  end.

Fixpoint has_property (k : jsstring) (props : list (jsstring * JsValue)) : bool :=
  match props with
  | [] => false
  | (k', _) :: props' => str_eqb k k' || has_property k props'
  end.

Fixpoint set_property (k : jsstring) (v : JsValue)
    (props : list (jsstring * JsValue)) : list (jsstring * JsValue) :=
  match props with
  | [] => []
  | (k', v') :: props' =>
      if str_eqb k k' then (k', v) :: props' else (k', v') :: set_property k v props'
  end.

(** [CreateDataProperty]: a repeated key keeps its place and takes the
    later value. *)
Definition define_property (k : jsstring) (v : JsValue)
    (props : list (jsstring * JsValue)) : list (jsstring * JsValue) :=
  if has_property k props then set_property k v props
  else insert_property k v props.

Inductive Parsed (A : Type) : Type :=
| Parsed_ok (a : A) (rest : jsstring)
| Parsed_error
| Out_of_fuel.
Arguments Parsed_ok {A} a rest.
Arguments Parsed_error {A}.
Arguments Out_of_fuel {A}.

Definition of_option {A} (r : option (A * jsstring)) : Parsed A :=
  match r with
  | Some (a, rest) => Parsed_ok a rest
  | None => Parsed_error
  end.

(** Recursive descent over the JSON grammar.  [parse_elements] reads the
    elements of an array after the opening bracket, [parse_members] the
    members of an object after the opening brace; both are entered on a
    non-empty container. *)
Fixpoint parse_value (fuel : nat) (s : jsstring) {struct fuel} : Parsed JsValue :=
  match fuel with
  | O => Out_of_fuel
  | S f =>
      match skip_ws s with
      | [] => Parsed_error
      | c :: r =>
          if c =? 123 then
            match skip_ws r with
            | [] => Parsed_error
            | c' :: r' =>
                if c' =? 125 then Parsed_ok (JObject []) r'
                else parse_members f r []
            end
          else if c =? 91 then
            match skip_ws r with
            | [] => Parsed_error
            | c' :: r' =>
                if c' =? 93 then Parsed_ok (JArray []) r'
                else parse_elements f r []
            end
          else if c =? 0x22 then
            match parse_string r with
            | Some (str, r') => Parsed_ok (JString str) r'
            | None => Parsed_error
            end
          else if (c =? 45) || is_digit c then of_option (parse_number (c :: r))
          else if startsWith (js "true") (c :: r) then Parsed_ok (JBool true) (skipn 4 (c :: r))
          else if startsWith (js "false") (c :: r) then Parsed_ok (JBool false) (skipn 5 (c :: r))
          else if startsWith (js "null") (c :: r) then Parsed_ok JNull (skipn 4 (c :: r))
          else Parsed_error
      end
  end
with parse_elements (fuel : nat) (s : jsstring) (acc : list JsValue) {struct fuel}
    : Parsed JsValue :=
  match fuel with
  | O => Out_of_fuel
  | S f =>
      match parse_value f s with
      | Parsed_ok v r =>
          match skip_ws r with
          | [] => Parsed_error
          | c :: r' =>
              if c =? 44 then parse_elements f r' (v :: acc)
              else if c =? 93 then Parsed_ok (JArray (rev (v :: acc))) r'
              else Parsed_error
          end
      | Parsed_error => Parsed_error
      | Out_of_fuel => Out_of_fuel
      end
  end
with parse_members (fuel : nat) (s : jsstring) (acc : list (jsstring * JsValue))
    {struct fuel} : Parsed JsValue :=
  match fuel with
  | O => Out_of_fuel
  | S f =>
      match skip_ws s with
      | [] => Parsed_error
      | q :: r =>
          if q =? 0x22 then
            match parse_string r with
            | None => Parsed_error
            | Some (k, r1) =>
                match skip_ws r1 with
                | [] => Parsed_error
                | c :: r2 =>
                    if c =? 58 then
                      match parse_value f r2 with
                      | Parsed_ok v r3 =>
                          match skip_ws r3 with
                          | [] => Parsed_error
                          | c' :: r4 =>
                              if c' =? 44 then parse_members f r4 (define_property k v acc)
                              else if c' =? 125 then
                                Parsed_ok (JObject (define_property k v acc)) r4
                              else Parsed_error
                          end
                      | Parsed_error => Parsed_error
                      | Out_of_fuel => Out_of_fuel
                      end
                    else Parsed_error
                end
            end
          else Parsed_error
      end
  end.

(** [JSON.parse(text)]: the value, or a [SyntaxError].  The fuel is
    enough for every text ([parse_value_fuel] below), so the last case
    never occurs. *)
Definition JSON_parse (text : jsstring) : Outcome JsValue :=
  match parse_value (2 * List.length text + 1) text with
  | Parsed_ok v rest =>
      match skip_ws rest with
      | [] => Return v
      | _ :: _ => Throw SyntaxError
      end
  | Parsed_error => Throw SyntaxError
  | Out_of_fuel => Throw SyntaxError
  end.

Definition jsq (s : string) : jsstring := [0x22] ++ js s ++ [0x22].

(** ** The Aptos SDK *)

(** [Types.MoveValue]: what a view function returns, as decoded from the
    node's JSON answer.  A number is an integer below 10^21 in absolute
    value (a node sends u8, u16 and u32 as numbers and larger integers as
    strings); from 10^21 on JavaScript prints a number in exponent
    notation, which [MoveValue_toString] does not model. *)
#[warnings="-register-all"] Inductive MoveValue : Type :=
| MoveNumber (n : Z)
| MoveBool (b : bool)
| MoveString (s : jsstring)
| MoveVector (elements : list MoveValue)
| MoveStruct (fields : list (jsstring * MoveValue)).

(** [Types.EntryFunctionPayload] *)
Record EntryFunctionPayload := {
  function_ : jsstring;
  type_arguments : list jsstring;
  arguments : list jsstring }.

(** [Types.ViewRequest] *)
Record ViewRequest := {
  view_function : jsstring;
  view_type_arguments : list jsstring;
  view_arguments : list jsstring }.

(** The part of the SDK the service uses.  The node and the network are
    a state of type [World]; every client method takes the node URL of
    the client it is called on, may change the world, and may throw.  A
    view that answers [null] or [undefined] is [Return None].

    [generateTransaction] has two parts.  The transaction builder of the
    client first looks at the function id and throws
    ([function_id_error]) unless it is made of three parts; this is
    [generateTransaction] below.  What it does with an id of three parts
    (it asks the node for the ABI of the module, the sequence number, the
    chain id and the gas price, and encodes the arguments) is
    [build_transaction]. *)
Class AptosSDK := {
  World : Type;
  AptosAccount : Type;
  RawTransaction : Type;
  new_AptosAccount : Buffer -> Outcome AptosAccount;
  address : AptosAccount -> jsstring;
  function_id_error : Exn;
  build_transaction :
    jsstring -> jsstring -> EntryFunctionPayload -> World -> Outcome RawTransaction * World;
  signTransaction :
    jsstring -> AptosAccount -> RawTransaction -> World -> Outcome Buffer * World;
  submitTransaction : jsstring -> Buffer -> World -> Outcome jsstring * World;
  waitForTransaction : jsstring -> jsstring -> World -> Outcome unit * World;
  view : jsstring -> ViewRequest -> World -> Outcome (option (list MoveValue)) * World }.

(** [new AptosClient(nodeUrl)] *)
Record AptosClient := { client_nodeUrl : jsstring }.

(** [client.generateTransaction(sender, payload)].  The builder splits
    [payload.function] at [::] and throws, before any request to the
    node, unless there are exactly three pieces: address, module and
    function.  (It first rewrites a leading [0x0...0] of the id to [0x],
    which moves no [::].) *)
Definition generateTransaction `{AptosSDK} (nodeUrl sender : jsstring)
    (payload : EntryFunctionPayload) (w : World) : Outcome RawTransaction * World :=
  if (List.length (split (js "::") (function_ payload)) =? 3)%nat
  then build_transaction nodeUrl sender payload w
  else (Throw function_id_error, w).

(** What the service does to the outside: the calls it makes on the
    client, and what it logs. *)
Inductive Call `{AptosSDK} : Type :=
| Call_generateTransaction (sender : jsstring) (payload : EntryFunctionPayload)
| Call_signTransaction (account : AptosAccount) (raw : RawTransaction)
| Call_submitTransaction (signed : Buffer)
| Call_waitForTransaction (hash : jsstring)
| Call_view (request : ViewRequest)
| Call_console_error (e : Exn).

Record State `{AptosSDK} := { world : World; trace : list Call }.

(** A computation that reads and changes the state and returns or
    throws.  The state survives a throw. *)
Definition M `{AptosSDK} (A : Type) : Type := State -> Outcome A * State.

Definition ret `{AptosSDK} {A} (a : A) : M A := fun st => (Return a, st).

Definition throw `{AptosSDK} {A} (e : Exn) : M A := fun st => (Throw e, st).

Definition bind `{AptosSDK} {A B} (m : M A) (k : A -> M B) : M B :=
  fun st =>
    match m st with
    | (Return a, st') => k a st'
    | (Throw e, st') => (Throw e, st')
    end.

(** [try { m } catch (e) { handler(e) }] *)
Definition try_catch `{AptosSDK} {A} (m : M A) (handler : Exn -> M A) : M A :=
  fun st =>
    match m st with
    | (Return a, st') => (Return a, st')
    | (Throw e, st') => handler e st'
    end.

(** A pure computation that may throw. *)
Definition lift `{AptosSDK} {A} (o : Outcome A) : M A := fun st => (o, st).

Notation "x <- m ;; k" := (bind m (fun x => k))
  (at level 61, m at next level, right associativity).
Notation "m ;;; k" := (bind m (fun _ => k))
  (at level 61, right associativity).

(** A call on the client: it is logged and takes its effect on the world. *)
Definition client_call `{AptosSDK} {A} (c : Call)
    (f : World -> Outcome A * World) : M A :=
  fun st =>
    let '(r, w) := f (world st) in
    (r, {| world := w; trace := trace st ++ [c] |}).

Definition console_error `{AptosSDK} (e : Exn) : M unit :=
  fun st => (Return tt, {| world := world st; trace := trace st ++ [Call_console_error e] |}).

(** [v.toString()] on a Move value.  An array joins its elements with
    commas; a plain object answers "[object Object]", unless a field
    named [toString] hides the inherited method, which is a [TypeError]. *)
Fixpoint MoveValue_toString (v : MoveValue) : Outcome jsstring :=
  match v with
  | MoveNumber n => Return (if n <? 0 then js "-" ++ decimal (- n) else decimal n)
  | MoveBool b => Return (if b then js "true" else js "false")
  | MoveString s => Return s
  | MoveVector l =>
      (fix elements (l : list MoveValue) : Outcome jsstring :=
         match l with
         | [] => Return []
         | [x] => MoveValue_toString x
         | x :: l' =>
             match MoveValue_toString x with
             | Return a =>
                 match elements l' with
                 | Return b => Return (a ++ js "," ++ b)
                 | Throw e => Throw e
                 end
             | Throw e => Throw e
             end
         end) l
  | MoveStruct fields =>
      if existsb (fun f => str_eqb (fst f) (js "toString")) fields
      then Throw TypeError
      else Return (js "[object Object]")
  end.

(** [x.toString()] where [x] may be [undefined]. *)
Definition toString (x : option MoveValue) : Outcome jsstring :=
  match x with
  | None => Throw TypeError
  | Some v => MoveValue_toString v
  end.

Fixpoint get_field (k : jsstring) (fields : list (jsstring * MoveValue)) : option MoveValue :=
  match fields with
  | [] => None
  | (k', v) :: fields' => if str_eqb k k' then Some v else get_field k fields'
  end.

(** [x.length] where [x] may be [undefined]: a [TypeError] on
    [undefined], [undefined] on a number or a boolean. *)
Definition get_length (x : option MoveValue) : Outcome (option MoveValue) :=
  match x with
  | None => Throw TypeError
  | Some (MoveString s) => Return (Some (MoveNumber (Z.of_nat (List.length s))))
  | Some (MoveVector l) => Return (Some (MoveNumber (Z.of_nat (List.length l))))
  | Some (MoveStruct fields) => Return (get_field (js "length") fields)
  | Some (MoveNumber _) | Some (MoveBool _) => Return None
  end.

(** [x === s] for a string [s]. *)
Definition strict_equals (x : option MoveValue) (s : jsstring) : bool :=
  match x with
  | Some (MoveString m) => str_eqb m s
  | _ => false
  end.

(** ** The service (lines 55-343) *)

Definition MODULE_ADDRESS : jsstring := js "0x1".
Definition MODULE_NAME : jsstring := js "SupplyChain".
Definition RESOURCE_NAME : jsstring := js "product_manager".

Definition MODULE : jsstring :=
  MODULE_ADDRESS ++ js "::" ++ MODULE_NAME ++ js "::" ++ RESOURCE_NAME.
Definition MINT_PRODUCT : jsstring := MODULE ++ js "::mint_product".
Definition GET_PRODUCT_INFO : jsstring := MODULE ++ js "::get_product_info".
Definition TRANSFER_PRODUCT : jsstring := MODULE ++ js "::transfer_product".

(** [interface ProductMetadata].  An optional field that is absent (or
    [undefined]) is [None]; the entries of [additionalInfo] are listed in
    enumeration order.  The object is taken to hold its properties in the
    order of the interface, as an object literal written in that order
    does: [JSON.stringify] writes the properties in the order in which
    they were added, so an object built in another order gives a text
    with the same members in that other order. *)
Record ProductMetadata := {
  name : jsstring;
  description : jsstring;
  dateManufactured : Date;
  ipfsLink : option jsstring;
  additionalInfo : option (list (jsstring * jsstring)) }.

Definition optional_property {A B} (k : jsstring) (f : A -> B) (x : option A)
    : list (jsstring * B) :=
  match x with
  | Some a => [(k, f a)]
  | None => []
  end.

(** The object a [ProductMetadata] is at run time, its properties in the
    order of the interface. *)
Definition ProductMetadata_value (m : ProductMetadata) : JsValue :=
  JObject
    ([(js "name", JString (name m));
      (js "description", JString (description m));
      (js "dateManufactured", JDate (dateManufactured m))]
     ++ optional_property (js "ipfsLink") JString (ipfsLink m)
     ++ optional_property (js "additionalInfo")
          (fun r => JObject (map (fun kv => (fst kv, JString (snd kv))) r))
          (additionalInfo m)).

(** [JSON.stringify] of a [Record<string, string>] *)
Definition stringify_Record (r : list (jsstring * jsstring)) : jsstring :=
  SerializeJSONObject (map (fun kv => (fst kv, QuoteJSONString (snd kv))) r).

(** [JSON.stringify] of a [Date]: the quoted result of [toJSON], or
    [null] when [toJSON] answers [null]. *)
Definition stringify_Date (d : Date) : jsstring :=
  match Date_toJSON d with
  | Some iso => QuoteJSONString iso
  | None => js "null"
  end.

(** [JSON.stringify(metadata)] at type [ProductMetadata]: a property
    whose value is [undefined] is left out. *)
Definition JSON_stringify (m : ProductMetadata) : jsstring :=
  SerializeJSONObject
    ([(js "name", QuoteJSONString (name m));
      (js "description", QuoteJSONString (description m));
      (js "dateManufactured", stringify_Date (dateManufactured m))]
     ++ optional_property (js "ipfsLink") QuoteJSONString (ipfsLink m)
     ++ optional_property (js "additionalInfo") stringify_Record (additionalInfo m)).

(** The run-time shape of [interface ProductInfo]: the casts of
    [getProductInfo] check nothing, so the fields hold what the node
    answered ([None] is [undefined]) and what [JSON.parse] returned. *)
Record ProductInfo := {
  id : option MoveValue;
  manufacturer : option MoveValue;
  currentOwner : option MoveValue;
  metadata : JsValue;
  history : option MoveValue }.

(** The result of [verifyProduct].  An optional property is absent
    ([None]) or present with a value that may be [undefined]. *)
Record Verification := {
  exists_ : bool;
  isAuthentic : bool;
  verified_manufacturer : option (option MoveValue);
  verified_currentOwner : option (option MoveValue);
  transferCount : option (option MoveValue) }.

Definition not_initialized : jsstring :=
  js "Company account not initialized. Provide a private key in the constructor.".

(** Lines 169-172 of [mintProduct]: the metadata as hex. *)
Definition serializeMetadata (m : ProductMetadata) : jsstring :=
  Buffer_toString_hex (Buffer_from_utf8 (JSON_stringify m)).

(** Lines 256-261 of [getProductInfo]: the metadata back from hex. *)
Definition deserializeMetadata (metadataHex : option MoveValue) : Outcome JsValue :=
  match toString metadataHex with
  | Return s =>
      JSON_parse (Buffer_toString_utf8 (Buffer_from_hex (substring_from 2 s)))
  | Throw e => Throw e
  end.

Section SupplyChain.
Context `{AptosSDK}.

(** [class SupplyChain] *)
Record SupplyChain := {
  client : AptosClient;
  companyAccount : option AptosAccount }.

(** The constructor: an account is made only from a private key that
    is given and not empty. *)
Definition new_SupplyChain (nodeUrl : jsstring) (privateKey : option jsstring)
    : Outcome SupplyChain :=
  let client := {| client_nodeUrl := nodeUrl |} in
  match privateKey with
  | Some ((_ :: _) as key) =>
      match new_AptosAccount (Buffer_from_hex (replace_first (js "0x") [] key)) with
      | Return account => Return {| client := client; companyAccount := Some account |}
      | Throw e => Throw e
      end
  | _ => Return {| client := client; companyAccount := None |}
  end.

Definition mintProduct (this : SupplyChain) (productId : jsstring)
    (metadata : ProductMetadata) : M jsstring :=
  match companyAccount this with
  | None => throw (Error not_initialized)
  | Some account =>
      let url := client_nodeUrl (client this) in
      let serializedMetadata := serializeMetadata metadata in
      let payload := {| function_ := MINT_PRODUCT;
                        type_arguments := [];
                        arguments := [productId; js "0x" ++ serializedMetadata] |} in
      txnRequest <- client_call (Call_generateTransaction (address account) payload)
                      (generateTransaction url (address account) payload) ;;
      signedTxn <- client_call (Call_signTransaction account txnRequest)
                     (signTransaction url account txnRequest) ;;
      hash <- client_call (Call_submitTransaction signedTxn)
                (submitTransaction url signedTxn) ;;
      client_call (Call_waitForTransaction hash) (waitForTransaction url hash) ;;;
      ret hash
  end.

Definition transferProduct (this : SupplyChain) (productId newOwnerAddress : jsstring)
    : M jsstring :=
  match companyAccount this with
  | None => throw (Error not_initialized)
  | Some account =>
      let url := client_nodeUrl (client this) in
      let payload := {| function_ := TRANSFER_PRODUCT;
                        type_arguments := [];
                        arguments := [newOwnerAddress; productId] |} in
      txnRequest <- client_call (Call_generateTransaction (address account) payload)
                      (generateTransaction url (address account) payload) ;;
      signedTxn <- client_call (Call_signTransaction account txnRequest)
                     (signTransaction url account txnRequest) ;;
      hash <- client_call (Call_submitTransaction signedTxn)
                (submitTransaction url signedTxn) ;;
      client_call (Call_waitForTransaction hash) (waitForTransaction url hash) ;;;
      ret hash
  end.

(** The request of [getProductInfo] (lines 242-246). *)
Definition info_request (productId : jsstring) : ViewRequest :=
  {| view_function := GET_PRODUCT_INFO;
     view_type_arguments := [];
     view_arguments := [productId] |}.

(** The state after the view of [getProductInfo], with what followed
    the view in the trace. *)
Definition after_view (st : State) (productId : jsstring) (w : World) (more : list Call)
    : State :=
  {| world := w; trace := trace st ++ Call_view (info_request productId) :: more |}.

(** [null] is [None]. *)
Definition getProductInfo (this : SupplyChain) (productId : jsstring)
    : M (option ProductInfo) :=
  try_catch
    (let request := info_request productId in
     response <- client_call (Call_view request)
                   (view (client_nodeUrl (client this)) request) ;;
     match response with
     | None | Some [] => ret None
     | Some response =>
         let metadataHex := nth_error response 3 in
         metadata <- lift (deserializeMetadata metadataHex) ;;
         ret (Some {| id := nth_error response 0;
                      manufacturer := nth_error response 1;
                      currentOwner := nth_error response 2;
                      metadata := metadata;
                      history := nth_error response 4 |})
     end)
    (fun error => console_error error ;;; ret None).

Definition checkOnChainExist (this : SupplyChain) (productId : jsstring) : M bool :=
  productInfo <- getProductInfo this productId ;;
  ret (match productInfo with Some _ => true | None => false end).

Definition verifyProduct (this : SupplyChain) (productId expectedManufacturer : jsstring)
    : M Verification :=
  productInfo <- getProductInfo this productId ;;
  match productInfo with
  | None =>
      ret {| exists_ := false; isAuthentic := false;
             verified_manufacturer := None; verified_currentOwner := None;
             transferCount := None |}
  | Some productInfo =>
      let isAuthentic := strict_equals (manufacturer productInfo) expectedManufacturer in
      count <- lift (get_length (history productInfo)) ;;
      ret {| exists_ := true; isAuthentic := isAuthentic;
             verified_manufacturer := Some (manufacturer productInfo);
             verified_currentOwner := Some (currentOwner productInfo);
             transferCount := Some count |}
  end.

(** A URL that is [undefined] or empty is falsy. *)
Definition generateProductQrData (productId : jsstring) (dAppUrl : option jsstring)
    : jsstring :=
  match dAppUrl with
  | Some ((_ :: _) as url) => url ++ js "/verify?id=" ++ productId
  | _ => js "supplychain:product:" ++ productId
  end.

(** [process.env.APTOS_NODE_URL || 'https://fullnode.devnet.aptoslabs.com/v1'] *)
Definition nodeUrl (APTOS_NODE_URL : option jsstring) : jsstring :=
  match APTOS_NODE_URL with
  | Some ((_ :: _) as url) => url
  | _ => js "https://fullnode.devnet.aptoslabs.com/v1"
  end.

(** [const supplyChain = new SupplyChain(nodeUrl)] *)
Definition supplyChain (APTOS_NODE_URL : option jsstring) : SupplyChain :=
  {| client := {| client_nodeUrl := nodeUrl APTOS_NODE_URL |};
     companyAccount := None |}.

(** [export const checkOnChainExist], kept for backward compatibility *)
Definition exported_checkOnChainExist (APTOS_NODE_URL : option jsstring) (id : jsstring)
    : M bool :=
  checkOnChainExist (supplyChain APTOS_NODE_URL) id.

(** ** The server (lines 344-409) *)

(** The query string of a request, decoded, in order. *)
Record Request := { query_parameters : list (jsstring * jsstring) }.

(** [c.req.query(key)]: the first value of the key, or [undefined]. *)
Fixpoint query_of (params : list (jsstring * jsstring)) (key : jsstring) : option jsstring :=
  match params with
  | [] => None
  | (k, v) :: params' => if str_eqb k key then Some v else query_of params' key
  end.

Definition query (req : Request) (key : jsstring) : option jsstring :=
  query_of (query_parameters req) key.

(** [c.json(body)] *)
Inductive Response : Type := json (body : JsValue).

(** [app.get('/', ...)] *)
Definition get_root (APTOS_NODE_URL : option jsstring) (req : Request) : M Response :=
  match query req (js "i") with
  | Some ((_ :: _) as id) =>
      exist <- exported_checkOnChainExist APTOS_NODE_URL id ;;
      ret (json (JObject [(js "id", JString id); (js "exist", JBool exist)]))
  | _ => ret (json (JObject [(js "message", JString (js "MISSING ID"))]))
  end.

End SupplyChain.

(** ** Scan payloads *)

(** [toScanPayload] is the specification's name of [generateProductQrData]. *)
Definition toScanPayload : jsstring -> option jsstring -> jsstring :=
  generateProductQrData.

Inductive ScanResult : Type :=
| ScanId (id : jsstring)
| ParseError.

(** What follows the first occurrence of [marker] in [s]. *)
Fixpoint after_first (marker s : jsstring) : option jsstring :=
  if startsWith marker s then Some (skipn (List.length marker) s)
  else match s with
       | [] => None
       | _ :: s' => after_first marker s'
       end.

(** Modelled from the spec: [fromScanPayload] is missing from the
    source, which only generates payloads.  Section 4.5 asks for a parser
    that accepts both forms and rejects every other string: the bare form
    is the scheme prefix followed by the id, the URL form is an app URL,
    the text [/verify?id=] and the id.  The specification does not say how
    a string that fits a form in several ways is split; here the bare
    form is tried first and the URL form is split at the first
    [/verify?id=]. *)
Definition fromScanPayload (s : jsstring) : ScanResult :=
  if startsWith (js "supplychain:product:") s then
    ScanId (skipn (List.length (js "supplychain:product:")) s)
  else
    match after_first (js "/verify?id=") s with
    | Some id => ScanId id
    | None => ParseError
    end.

(** [s.includes(marker)] *)
Definition includes (marker s : jsstring) : bool :=
  match after_first marker s with
  | Some _ => true
  | None => false
  end.

(** No slash in a string. *)
Definition no_slash (p : jsstring) : bool := forallb (fun c => negb (c =? 47)) p.

(** ** A stub of the SDK

    A node that accepts every transaction the builder lets through and
    answers every view from a table, for running the service on concrete
    inputs.  An account is its seed, the first 32 bytes of the key, and
    its address the seed in hex; as in the SDK, a key of fewer than 32
    bytes is refused.  No statement depends on the wording of the two
    error messages. *)
Definition stub (answer : ViewRequest -> Outcome (option (list MoveValue))) : AptosSDK := {|
  World := unit;
  AptosAccount := Buffer;
  RawTransaction := jsstring * EntryFunctionPayload;
  new_AptosAccount := fun key =>
    if (List.length key <? 32)%nat then Throw (Error (js "bad seed size"))
    else Return (firstn 32 key);
  address := fun key => js "0x" ++ Buffer_toString_hex key;
  function_id_error :=
    Error (js "'func' needs to be a fully qualified function name in format <address>::<module>::<function>, e.g. 0x1::coin::transfer");
  build_transaction := fun _ sender payload w => (Return (sender, payload), w);
  signTransaction := fun _ _ _ w => (Return [0x51], w);
  submitTransaction := fun _ _ w => (Return (js "0xabc"), w);
  waitForTransaction := fun _ _ w => (Return tt, w);
  view := fun _ request w => (answer request, w) |}.

(** The state of the stub before any call, its accounts, and a service
    with a company account on it. *)
Definition stub_state (answer : ViewRequest -> Outcome (option (list MoveValue)))
    (calls : list (@Call (stub answer))) : @State (stub answer) :=
  @Build_State (stub answer) tt calls.

Definition stub_initial (answer : ViewRequest -> Outcome (option (list MoveValue)))
    : @State (stub answer) :=
  stub_state answer [].

Definition stub_account (answer : ViewRequest -> Outcome (option (list MoveValue)))
    (key : Buffer) : @AptosAccount (stub answer) := key.

Definition stub_company (answer : ViewRequest -> Outcome (option (list MoveValue)))
    (key : Buffer) : @SupplyChain (stub answer) :=
  @Build_SupplyChain (stub answer) {| client_nodeUrl := js "node" |}
    (Some (stub_account answer key)).

(** A private key of 32 bytes. *)
Definition company_key : Buffer := repeat 0x0a 32.

(** The answer of [get_product_info] for a product as the Move module
    stores it. *)
Definition product_answer (id manufacturer owner metadataHex : jsstring)
    (history : list jsstring) : list MoveValue :=
  [MoveString id; MoveString manufacturer; MoveString owner; MoveString metadataHex;
   MoveVector (map MoveString history)].

Definition shoe : ProductMetadata :=
  {| name := js "Shoe"; description := js "Left"; dateManufactured := Some 0;
     ipfsLink := None; additionalInfo := None |}.

(** A node on which product PROD-001 was minted by 0xa with the metadata
    [shoe] and transferred once, to 0xb. *)
Definition one_product (request : ViewRequest) : Outcome (option (list MoveValue)) :=
  match view_arguments request with
  | [id] =>
      if str_eqb id (js "PROD-001") then
        Return (Some (product_answer id (js "0xa") (js "0xb")
                        (js "0x" ++ serializeMetadata shoe) [js "0xb"]))
      else Return (Some [])
  | _ => Return (Some [])
  end.

(** A node that holds PROD-001 with a payload that is no JSON text (the
    single character [{]). *)
Definition corrupted_product (request : ViewRequest) : Outcome (option (list MoveValue)) :=
  Return (Some (product_answer (js "PROD-001") (js "0xa") (js "0xa") (js "0x7b") [])).

(** A node that holds PROD-001 with that payload and no other product. *)
Definition one_corrupted (request : ViewRequest) : Outcome (option (list MoveValue)) :=
  match view_arguments request with
  | [id] =>
      if str_eqb id (js "PROD-001") then
        Return (Some (product_answer id (js "0xa") (js "0xa") (js "0x7b") []))
      else Return (Some [])
  | _ => Return (Some [])
  end.

(** A node that holds nothing, and a node that cannot be reached. *)
Definition no_product (request : ViewRequest) : Outcome (option (list MoveValue)) :=
  Return (Some []).

Definition unreachable (request : ViewRequest) : Outcome (option (list MoveValue)) :=
  Throw (ApiError (js "fetch failed")).

(** Whether a value holds a [Date] object somewhere. *)
Fixpoint has_Date (v : JsValue) : bool :=
  match v with
  | JDate _ => true
  | JArray elements => existsb has_Date elements
  | JObject properties => existsb (fun kv => has_Date (snd kv)) properties
  | _ => false
  end.

Definition props_no_Date (props : list (jsstring * JsValue)) : bool :=
  negb (existsb (fun kv => has_Date (snd kv)) props).

(** ** What goes through the ledger and back *)

Definition is_byte (x : Z) : Prop := 0 <= x < 256.
Definition is_unit (c : Z) : Prop := 0 <= c < 65536.

(** A string whose surrogates come in pairs. *)
Fixpoint well_formed (s : jsstring) : bool :=
  match s with
  | [] => true
  | c :: s' =>
      if is_high_surrogate c then
        match s' with
        | d :: s'' => is_low_surrogate d && well_formed s''
        | [] => false
        end
      else negb (is_low_surrogate c) && (0 <=? c) && (c <=? 0xFFFF) && well_formed s'
  end.

Definition is_scalar (cp : Z) : Prop :=
  0 <= cp < 0x110000 /\ ~ (0xD800 <= cp <= 0xDFFF).

Definition ascii (s : jsstring) : bool := forallb (fun c => (0 <=? c) && (c <? 128)) s.

(** [text] is read back as [v], whatever follows it, with fuel [n] or
    more. *)
Definition parses (n : nat) (text : jsstring) (v : JsValue) : Prop :=
  forall fuel rest, (n <= fuel)%nat -> parse_value fuel (text ++ rest) = Parsed_ok v rest.

(** A member of an object: its key, with the text of its value and its
    value. *)
Definition member : Type := jsstring * (jsstring * JsValue).

Definition member_text (m : member) : jsstring * jsstring := (fst m, fst (snd m)).
Definition member_value (m : member) : jsstring * JsValue := (fst m, snd (snd m)).

Definition member_ok (n : nat) (m : member) : Prop :=
  Forall is_unit (fst m) /\ parses n (fst (snd m)) (snd (snd m)).

Definition define_member (acc : list (jsstring * JsValue)) (m : member)
    : list (jsstring * JsValue) :=
  define_property (fst m) (snd (snd m)) acc.

Definition printed (kv : jsstring * jsstring) : jsstring :=
  QuoteJSONString (fst kv) ++ js ":" ++ snd kv.

(** Whether key [k] is enumerated after the keys [seen]: it is new, and
    when it is an array index the keys seen are array indices that are
    not larger. *)
Definition follows (k : jsstring) (seen : list jsstring) : bool :=
  negb (existsb (str_eqb k) seen) &&
  match array_index k with
  | None => true
  | Some i =>
      forallb (fun k' => match array_index k' with
                         | Some i' => i' <=? i
                         | None => false
                         end) seen
  end.

Fixpoint enumeration_order_from (seen keys : list jsstring) : bool :=
  match keys with
  | [] => true
  | k :: keys' => follows k seen && enumeration_order_from (seen ++ [k]) keys'
  end.

(** The keys of an object as it enumerates them: each one once, the
    array indices first, in ascending order. *)
Definition enumeration_order (keys : list jsstring) : bool :=
  enumeration_order_from [] keys.

Definition valid_string (s : jsstring) : bool :=
  forallb (fun c => (0 <=? c) && (c <? 65536)) s.

(** Metadata as a JavaScript program can hold it: strings of code units,
    and the entries of [additionalInfo] in enumeration order. *)
Definition valid_metadata (m : ProductMetadata) : bool :=
  valid_string (name m) && valid_string (description m) &&
  match ipfsLink m with
  | Some link => valid_string link
  | None => true
  end &&
  match additionalInfo m with
  | Some r =>
      forallb (fun kv => valid_string (fst kv) && valid_string (snd kv)) r
      && enumeration_order (map fst r)
  | None => true
  end.

(** What [JSON.parse] makes of a serialized date. *)
Definition Date_decoded (d : Date) : JsValue :=
  match Date_toJSON d with
  | Some iso => JString iso
  | None => JNull
  end.

(** The object [getProductInfo] decodes from the payload of
    [mintProduct]: the metadata, with the ISO string (or [null]) in the
    place of the date. *)
Definition ProductMetadata_decoded (m : ProductMetadata) : JsValue :=
  JObject
    ([(js "name", JString (name m));
      (js "description", JString (description m));
      (js "dateManufactured", Date_decoded (dateManufactured m))]
     ++ optional_property (js "ipfsLink") JString (ipfsLink m)
     ++ optional_property (js "additionalInfo")
          (fun r => JObject (map (fun kv => (fst kv, JString (snd kv))) r))
          (additionalInfo m)).

Definition string_member (k s : jsstring) : member := (k, (QuoteJSONString s, JString s)).

Definition record_members (r : list (jsstring * jsstring)) : list member :=
  map (fun kv => string_member (fst kv) (snd kv)) r.

Definition metadata_members (m : ProductMetadata) : list member :=
  [string_member (js "name") (name m);
   string_member (js "description") (description m);
   (js "dateManufactured", (stringify_Date (dateManufactured m), Date_decoded (dateManufactured m)))]
  ++ optional_property (js "ipfsLink") (fun l => (QuoteJSONString l, JString l)) (ipfsLink m)
  ++ optional_property (js "additionalInfo")
       (fun r => (stringify_Record r, JObject (map (fun kv => (fst kv, JString (snd kv))) r)))
       (additionalInfo m).

Definition text_ok (kv : jsstring * jsstring) : Prop :=
  Forall is_unit (fst kv) /\ well_formed (snd kv) = true.

(** ** Transactions *)

(** The payload of [mintProduct] (lines 174-178) and the payload of
    [transferProduct] (lines 212-216). *)
Definition mint_payload (productId : jsstring) (metadata : ProductMetadata)
    : EntryFunctionPayload :=
  {| function_ := MINT_PRODUCT;
     type_arguments := [];
     arguments := [productId; js "0x" ++ serializeMetadata metadata] |}.

Definition transfer_payload (productId newOwnerAddress : jsstring) : EntryFunctionPayload :=
  {| function_ := TRANSFER_PRODUCT;
     type_arguments := [];
     arguments := [newOwnerAddress; productId] |}.

Section Transactions.
Context `{AptosSDK}.

(** The four client steps that [mintProduct] (lines 180-193) and
    [transferProduct] (lines 218-231) have in common. *)
Definition send_transaction (this : SupplyChain) (account : AptosAccount)
    (payload : EntryFunctionPayload) : M jsstring :=
  let url := client_nodeUrl (client this) in
  txnRequest <- client_call (Call_generateTransaction (address account) payload)
                  (generateTransaction url (address account) payload) ;;
  signedTxn <- client_call (Call_signTransaction account txnRequest)
                 (signTransaction url account txnRequest) ;;
  hash <- client_call (Call_submitTransaction signedTxn)
            (submitTransaction url signedTxn) ;;
  client_call (Call_waitForTransaction hash) (waitForTransaction url hash) ;;;
  ret hash.

(** The calls that build, sign, submit or await a transaction. *)
Definition is_transaction_call (c : Call) : bool :=
  match c with
  | Call_generateTransaction _ _ | Call_signTransaction _ _
  | Call_submitTransaction _ | Call_waitForTransaction _ => true
  | Call_view _ | Call_console_error _ => false
  end.

Definition is_submission (c : Call) : bool :=
  match c with
  | Call_submitTransaction _ => true
  | _ => false
  end.

(** What one run of [mintProduct] or [transferProduct] may add to the
    trace: transaction calls only, at most one submission among them, and
    when a hash is returned the four steps, the submission followed by the
    wait for that hash. *)
Definition one_transaction (st : State) (run : Outcome jsstring * State) : Prop :=
  exists calls,
    trace (snd run) = trace st ++ calls /\
    forallb is_transaction_call calls = true /\
    (List.length (filter is_submission calls) <= 1)%nat /\
    match fst run with
    | Return hash =>
        exists sender payload account raw signed,
          calls = [Call_generateTransaction sender payload;
                   Call_signTransaction account raw;
                   Call_submitTransaction signed;
                   Call_waitForTransaction hash]
    | Throw _ => (List.length calls <= 4)%nat
    end.

End Transactions.

(** ** The database configuration (lines 36-54)

    The module reads two environment variables when it is loaded; a
    variable that is not set is [None]. *)
Module Drizzle.

Record Credentials := { url : jsstring; authToken : jsstring }.

Record Config := {
  schema : jsstring;
  out : jsstring;
  dialect : jsstring;
  dbCredentials : Credentials }.

(** [defineConfig] of drizzle-kit returns its argument. *)
Definition defineConfig (c : Config) : Config := c.

(** What loading the module gives: its default export, or the error it
    throws.  A variable that is unset or empty is falsy. *)
Definition config (DATABASE_URL DATABASE_AUTH_TOKEN : option jsstring) : Outcome Config :=
  match DATABASE_URL with
  | Some ((_ :: _) as database_url) =>
      match DATABASE_AUTH_TOKEN with
      | Some ((_ :: _) as token) =>
          Return (defineConfig
                    {| schema := js "./src/db/schema";
                       out := js "./src/db/migrations";
                       dialect := js "turso";
                       dbCredentials := {| url := database_url; authToken := token |} |})
      | _ => Throw (Error (js "DATABASE_AUTH_TOKEN is not set"))
      end
  | _ => Throw (Error (js "DATABASE_URL is not set"))
  end.

End Drizzle.

(** ** More nodes to run the service on *)

(** A node whose answer for every product stops after the current owner,
    and one whose answer has the metadata but no history. *)
Definition three_values (request : ViewRequest) : Outcome (option (list MoveValue)) :=
  Return (Some [MoveString (js "PROD-001"); MoveString (js "0xa"); MoveString (js "0xa")]).

Definition four_values (request : ViewRequest) : Outcome (option (list MoveValue)) :=
  Return (Some [MoveString (js "PROD-001"); MoveString (js "0xa"); MoveString (js "0xa");
                MoveString (js "0x" ++ serializeMetadata shoe)]).

(** No letter [x] in a string. *)
Definition no_x (s : jsstring) : bool := forallb (fun c => negb (c =? 120)) s.

(** * Properties *)

(** ** The built-ins on concrete inputs *)

Example hex_of_brace : Buffer_toString_hex (Buffer_from_utf8 (js "{}")) = js "7b7d".
Proof. reflexivity. Qed.

Example hex_low_byte :
  Buffer_from_hex (js "7b7dzz") = [0x7b; 0x7d]
  /\ Buffer_from_hex (js "7B7d1") = [0x7b; 0x7d]
  /\ Buffer_from_hex [0x137; 0x162] = [0x7b].
Proof. repeat split; reflexivity. Qed.

Example utf8_euro :
  Buffer_from_utf8 [0x20AC; 0xD83D; 0xDE00; 0xD800] =
  [0xE2; 0x82; 0xAC; 0xF0; 0x9F; 0x98; 0x80; 0xEF; 0xBF; 0xBD].
Proof. reflexivity. Qed.

Example utf8_back :
  Buffer_toString_utf8 [0xE2; 0x82; 0xAC; 0xF0; 0x9F; 0x98; 0x80; 0xC3; 0x28] =
  [0x20AC; 0xD83D; 0xDE00; 0xFFFD; 0x28].
Proof. reflexivity. Qed.

Example decimal_ex : decimal 1970 = js "1970" /\ decimal 0 = js "0" /\ pad0 3 7 = js "007".
Proof. repeat split; reflexivity. Qed.

Example iso_epoch : Date_toISOString 0 = js "1970-01-01T00:00:00.000Z".
Proof. reflexivity. Qed.

Example iso_2024 : Date_toISOString 1709210096789 = js "2024-02-29T12:34:56.789Z".
Proof. reflexivity. Qed.

Example iso_before_epoch : Date_toISOString (-1) = js "1969-12-31T23:59:59.999Z".
Proof. reflexivity. Qed.

Example iso_far : Date_toISOString 253402300800000 = js "+010000-01-01T00:00:00.000Z".
Proof. reflexivity. Qed.

Example parse_nested :
  JSON_parse (js "{ " ++ jsq "a" ++ js " : [1, -2.50e3, true, null, " ++ jsq "x"
              ++ js "], " ++ jsq "b" ++ js ":{}, " ++ jsq "a" ++ js ":[] }")
  = Return (JObject [(js "a", JArray []); (js "b", JObject [])]).
Proof. vm_compute. reflexivity. Qed.

Example parse_array :
  JSON_parse (js "[1, -2.50e3, true, null, " ++ [0x22] ++ js "x" ++ [0x5C] ++ js "u0041"
              ++ [0x5C] ++ js "n" ++ [0x22] ++ js "]")
  = Return (JArray [JNumber 1 0; JNumber (-250) 1; JBool true; JNull;
                    JString (js "x" ++ js "A" ++ [10])]).
Proof. vm_compute. reflexivity. Qed.

Example parse_index_keys :
  JSON_parse (js "{" ++ jsq "b" ++ js ":1," ++ jsq "10" ++ js ":2," ++ jsq "9" ++ js ":3," ++ jsq "01" ++ js ":4}")
  = Return (JObject [(js "9", JNumber 3 0); (js "10", JNumber 2 0);
                     (js "b", JNumber 1 0); (js "01", JNumber 4 0)]).
Proof. vm_compute. reflexivity. Qed.

Example parse_errors :
  JSON_parse (js "{") = Throw SyntaxError /\
  JSON_parse (js "") = Throw SyntaxError /\
  JSON_parse (js "01") = Throw SyntaxError /\
  JSON_parse (js "[1,]") = Throw SyntaxError /\
  JSON_parse (js "{} x") = Throw SyntaxError /\
  JSON_parse (js "1.") = Throw SyntaxError /\
  JSON_parse (js " truex") = Throw SyntaxError /\
  JSON_parse (js " true ") = Return (JBool true).
Proof. vm_compute. repeat split; reflexivity. Qed.

Example toString_vector :
  toString (Some (MoveVector [MoveNumber 12; MoveString (js "ab"); MoveVector [MoveBool true]]))
  = Return (js "12,ab,true").
Proof. reflexivity. Qed.

Example split_runs :
  split (js "::") (js "0x1::coin::transfer") = [js "0x1"; js "coin"; js "transfer"]
  /\ split (js "::") (js "a:::b") = [js "a"; js ":b"]
  /\ split (js "::") (js "") = [js ""]
  /\ split (js "::") MINT_PRODUCT
     = [js "0x1"; js "SupplyChain"; js "product_manager"; js "mint_product"].
Proof. repeat split; reflexivity. Qed.

Example builder_runs :
  let coin := {| function_ := js "0x1::coin::transfer"; type_arguments := [];
                 arguments := [js "0xb"; js "1"] |} in
  generateTransaction (H := stub no_product) (js "node") (js "0xa") coin tt
  = (Return (js "0xa", coin), tt).
Proof. reflexivity. Qed.

Example mint_runs :
  mintProduct (stub_company no_product company_key) (js "PROD-001") shoe
    (stub_initial no_product)
  = (Throw (@function_id_error (stub no_product)),
     stub_state no_product
       [Call_generateTransaction (address (stub_account no_product company_key))
          {| function_ := js "0x1::SupplyChain::product_manager::mint_product";
             type_arguments := [];
             arguments := [js "PROD-001"; js "0x" ++ serializeMetadata shoe] |}]).
Proof. vm_compute. reflexivity. Qed.

Example query_runs :
  fst (getProductInfo (supplyChain None) (js "PROD-001") (stub_initial one_product))
  = Return (Some {| id := Some (MoveString (js "PROD-001"));
                    manufacturer := Some (MoveString (js "0xa"));
                    currentOwner := Some (MoveString (js "0xb"));
                    metadata :=
                      JObject [(js "name", JString (js "Shoe"));
                               (js "description", JString (js "Left"));
                               (js "dateManufactured", JString (js "1970-01-01T00:00:00.000Z"))];
                    history := Some (MoveVector [MoveString (js "0xb")]) |}).
Proof. vm_compute. reflexivity. Qed.

Example constructor_runs :
  new_SupplyChain (H := stub no_product) (js "node")
    (Some (js "0x" ++ Buffer_toString_hex company_key))
  = Return (stub_company no_product company_key)
  /\ new_SupplyChain (H := stub no_product) (js "node") (Some (js "0x0a"))
     = Throw (Error (js "bad seed size"))
  /\ nodeUrl (Some (js "http://localhost:8080")) = js "http://localhost:8080"
  /\ nodeUrl (Some (js "")) = js "https://fullnode.devnet.aptoslabs.com/v1"
  /\ nodeUrl None = js "https://fullnode.devnet.aptoslabs.com/v1".
Proof. repeat split; reflexivity. Qed.

(** ** Strings *)




Lemma startsWith_app (p s : jsstring) : startsWith p (p ++ s) = true.
Proof.
  induction p as [|x p IH]; simpl; [reflexivity|].
  rewrite Z.eqb_refl. exact IH.
Qed.

Lemma startsWith_split (p s : jsstring) :
  startsWith p s = true -> s = p ++ skipn (List.length p) s.
Proof.
  revert s. induction p as [|x p IH]; intros [|y s]; simpl; try discriminate; [reflexivity..|].
  intros E. apply andb_prop in E as [E1 E2].
  apply Z.eqb_eq in E1. subst y. f_equal. apply IH, E2.
Qed.

Lemma skipn_app_length (p s : jsstring) : skipn (List.length p) (p ++ s) = s.
Proof. induction p as [|x p IH]; simpl; [reflexivity | exact IH]. Qed.

(** ** The company account *)

Section Account.
Context `{AptosSDK}.

(** C9.  A [SupplyChain] constructed without a private key exists, and
    on it every [mintProduct] and every [transferProduct] throws the
    error "Company account not initialized. Provide a private key in the
    constructor." and leaves the state as it was: the trace has no new
    call, so nothing was built, signed or submitted. *)
Theorem no_key_no_transaction (url : jsstring) :
  exists this,
    new_SupplyChain url None = Return this /\
    forall (productId newOwner : jsstring) (metadata : ProductMetadata) (st : State),
      mintProduct this productId metadata st
      = (Throw (Error (js "Company account not initialized. Provide a private key in the constructor.")), st)
      /\
      transferProduct this productId newOwner st
      = (Throw (Error (js "Company account not initialized. Provide a private key in the constructor.")), st).
Proof.
  eexists. split; [reflexivity|].
  intros productId newOwner metadata st. split; reflexivity.
Qed.

(** A private key that is the empty string is no key either. *)
Lemma empty_key_no_account (url : jsstring) :
  new_SupplyChain url (Some []) = new_SupplyChain url None.
Proof. reflexivity. Qed.

Lemma supplyChain_constructed (env : option jsstring) :
  new_SupplyChain (nodeUrl env) None = Return (supplyChain env).
Proof. reflexivity. Qed.

End Account.

(** ** The existence-check endpoint *)

Section Endpoint.
Context `{AptosSDK}.

(** C10.  A request whose [i] query parameter is absent or empty is
    answered with the JSON object [{message: 'MISSING ID'}], and the
    state is untouched: no view was sent to the node. *)
Theorem missing_id (env : option jsstring) (req : Request) (st : State) :
  query req (js "i") = None \/ query req (js "i") = Some [] ->
  get_root env req st
  = (Return (json (JObject [(js "message", JString (js "MISSING ID"))])), st).
Proof.
  intros [E|E]; unfold get_root; rewrite E; reflexivity.
Qed.

End Endpoint.

Lemma missing_id_witness :
  get_root None {| query_parameters := [(js "q", js "PROD-001"); (js "i", [])] |}
    (stub_initial one_product)
  = (Return (json (JObject [(js "message", JString (js "MISSING ID"))])),
     stub_initial one_product).
Proof.
  apply missing_id. right. reflexivity.
Defined.

(** ** QR data *)

(** C6, as the code has it.  With an app URL that is given and not empty
    the payload is the URL, [/verify?id=] and the id; with no app URL, and
    also with an empty one, it is [supplychain:product:] and the id. *)
Theorem qr_data_forms (productId url : jsstring) :
  url <> [] ->
  generateProductQrData productId (Some url) = url ++ js "/verify?id=" ++ productId
  /\ generateProductQrData productId None = js "supplychain:product:" ++ productId
  /\ generateProductQrData productId (Some []) = js "supplychain:product:" ++ productId.
Proof.
  intros Hurl. destruct url as [|c url]; [congruence|].
  split; [|split]; reflexivity.
Qed.

Lemma qr_data_forms_witness :
  generateProductQrData (js "123") (Some (js "https://example.com"))
  = js "https://example.com" ++ js "/verify?id=" ++ js "123"
  /\ generateProductQrData (js "123") None = js "supplychain:product:" ++ js "123"
  /\ generateProductQrData (js "123") (Some []) = js "supplychain:product:" ++ js "123".
Proof.
  apply (qr_data_forms (js "123") (js "https://example.com")). discriminate.
Defined.

(** C6 fails for an app URL that is given but empty: the payload is the
    bare form, not [/verify?id=123]. *)
Lemma qr_data_empty_url :
  generateProductQrData (js "123") (Some (js "")) = js "supplychain:product:123"
  /\ generateProductQrData (js "123") (Some (js "")) <> js "" ++ js "/verify?id=" ++ js "123".
Proof. split; [reflexivity | discriminate]. Qed.

(** ** Queries *)

Section Queries.
Context `{AptosSDK}.

Variable this : SupplyChain.
Variable productId : jsstring.
Variable st : State.

Ltac run_query :=
  unfold getProductInfo, try_catch, bind, client_call, lift, ret, console_error,
    after_view.

Lemma getProductInfo_view_throws (e : Exn) (w : World) :
  view (client_nodeUrl (client this)) (info_request productId) (world st) = (Throw e, w) ->
  getProductInfo this productId st = (Return None, after_view st productId w [Call_console_error e]).
Proof.
  intros E. run_query. rewrite E. cbv beta iota zeta. cbn [world trace].
  rewrite <- app_assoc. reflexivity.
Qed.

Lemma getProductInfo_nothing (r : option (list MoveValue)) (w : World) :
  view (client_nodeUrl (client this)) (info_request productId) (world st) = (Return r, w) ->
  r = None \/ r = Some [] ->
  getProductInfo this productId st = (Return None, after_view st productId w []).
Proof.
  intros E [-> | ->]; run_query; rewrite E; reflexivity.
Qed.

Lemma getProductInfo_found (response : list MoveValue) (w : World) (m : JsValue) :
  view (client_nodeUrl (client this)) (info_request productId) (world st) = (Return (Some response), w) ->
  response <> [] ->
  deserializeMetadata (nth_error response 3) = Return m ->
  getProductInfo this productId st
  = (Return (Some {| id := nth_error response 0;
                     manufacturer := nth_error response 1;
                     currentOwner := nth_error response 2;
                     metadata := m;
                     history := nth_error response 4 |}),
     after_view st productId w []).
Proof.
  intros E Hne D. run_query. rewrite E.
  destruct response as [|x response]; [congruence|].
  cbv beta iota zeta. rewrite D. reflexivity.
Qed.

Lemma getProductInfo_malformed (response : list MoveValue) (w : World) (e : Exn) :
  view (client_nodeUrl (client this)) (info_request productId) (world st)
  = (Return (Some response), w) ->
  response <> [] ->
  deserializeMetadata (nth_error response 3) = Throw e ->
  getProductInfo this productId st
  = (Return None, after_view st productId w [Call_console_error e]).
Proof.
  intros E Hne D. run_query. rewrite E.
  destruct response as [|x response]; [congruence|].
  cbv beta iota zeta. rewrite D. cbv beta iota zeta. cbn [world trace].
  rewrite <- app_assoc. reflexivity.
Qed.

(** [getProductInfo] returns on every input: each error is caught. *)
Lemma getProductInfo_returns :
  exists info st', getProductInfo this productId st = (Return info, st').
Proof.
  destruct (view (client_nodeUrl (client this)) (info_request productId) (world st)) as [[r|e] w] eqn:E.
  - destruct r as [[|x response]|].
    + eexists _, _. eapply getProductInfo_nothing; [exact E | now right].
    + destruct (deserializeMetadata (nth_error (x :: response) 3)) as [m|e] eqn:D.
      * eexists _, _. eapply getProductInfo_found; [exact E | discriminate | exact D].
      * eexists _, _. eapply getProductInfo_malformed; [exact E | discriminate | exact D].
    + eexists _, _. eapply getProductInfo_nothing; [exact E | now left].
  - eexists _, _. apply getProductInfo_view_throws, E.
Qed.

(** What [getProductInfo] does to the outside is one view, and one line
    on the console when it caught an error. *)
Lemma getProductInfo_effect (info : option ProductInfo) (st' : State) :
  getProductInfo this productId st = (Return info, st') ->
  world st' = snd (view (client_nodeUrl (client this)) (info_request productId) (world st)) /\
  (trace st' = trace st ++ [Call_view (info_request productId)] \/
   exists e, info = None /\
     trace st' = trace st ++ [Call_view (info_request productId); Call_console_error e]).
Proof.
  destruct (view (client_nodeUrl (client this)) (info_request productId) (world st)) as [[r|e] w] eqn:E.
  - destruct r as [[|x response]|].
    + rewrite (getProductInfo_nothing _ _ E) by now right.
      intros [= <- <-]. split; [reflexivity | now left].
    + destruct (deserializeMetadata (nth_error (x :: response) 3)) as [m|e] eqn:D.
      * rewrite (getProductInfo_found _ _ _ E) by (discriminate || exact D).
        intros [= <- <-]. split; [reflexivity | now left].
      * rewrite (getProductInfo_malformed _ _ _ E) by (discriminate || exact D).
        intros [= <- <-]. split; [reflexivity | right; now exists e].
    + rewrite (getProductInfo_nothing _ _ E) by now left.
      intros [= <- <-]. split; [reflexivity | now left].
  - rewrite (getProductInfo_view_throws _ _ E).
    intros [= <- <-]. split; [reflexivity | right; now exists e].
Qed.

(** C4, as the code has it.  When the node answers with a product whose
    metadata cannot be decoded, [getProductInfo] returns [null]; the
    decoding error is written to the console and not raised.  This is the
    result it gives for a product that does not exist: on every service,
    product id and state for which the node answers nothing (or an empty
    array), [getProductInfo] returns the same [null]. *)
Theorem malformed_metadata_is_null (response : list MoveValue) (w : World) (e : Exn) :
  view (client_nodeUrl (client this)) (info_request productId) (world st)
  = (Return (Some response), w) ->
  response <> [] ->
  deserializeMetadata (nth_error response 3) = Throw e ->
  getProductInfo this productId st
  = (Return None, after_view st productId w [Call_console_error e])
  /\
  forall (other : SupplyChain) (absentId : jsstring) (st0 : State)
         (r : option (list MoveValue)) (w0 : World),
    view (client_nodeUrl (client other)) (info_request absentId) (world st0) = (Return r, w0) ->
    r = None \/ r = Some [] ->
    fst (getProductInfo other absentId st0) = fst (getProductInfo this productId st).
Proof.
  intros E Hne D.
  pose proof (getProductInfo_malformed response w e E Hne D) as M.
  split; [exact M|].
  intros other absentId st0 r w0 E0 Hr. rewrite M.
  unfold getProductInfo, try_catch, bind, client_call, lift, ret.
  rewrite E0. destruct Hr as [-> | ->]; reflexivity.
Qed.

(** C7, as the code has it.  [checkOnChainExist] never raises: it
    returns [true] exactly when [getProductInfo] returns a product, and
    [false] when [getProductInfo] returns [null], be it for an empty
    answer, for an error of the view, or for metadata that cannot be
    decoded. *)
Theorem exists_collapses_every_failure :
  (exists info st',
      getProductInfo this productId st = (Return info, st') /\
      checkOnChainExist this productId st
      = (Return (match info with Some _ => true | None => false end), st')) /\
  (forall e w,
      view (client_nodeUrl (client this)) (info_request productId) (world st) = (Throw e, w) ->
      checkOnChainExist this productId st
      = (Return false, after_view st productId w [Call_console_error e])) /\
  (forall response w e,
      view (client_nodeUrl (client this)) (info_request productId) (world st) = (Return (Some response), w) ->
      response <> [] ->
      deserializeMetadata (nth_error response 3) = Throw e ->
      checkOnChainExist this productId st
      = (Return false, after_view st productId w [Call_console_error e])).
Proof.
  split; [|split].
  - destruct getProductInfo_returns as (info & st' & E).
    exists info, st'. split; [exact E|].
    unfold checkOnChainExist, bind. rewrite E. reflexivity.
  - intros e w E. unfold checkOnChainExist, bind.
    rewrite (getProductInfo_view_throws _ _ E). reflexivity.
  - intros response w e E Hne D. unfold checkOnChainExist, bind.
    rewrite (getProductInfo_malformed _ _ _ E Hne D). reflexivity.
Qed.


(** The two cases of C2 are all there is: the query never raises. *)
Lemma verifyProduct_cases :
  (exists st', getProductInfo this productId st = (Return None, st')) \/
  (exists info st', getProductInfo this productId st = (Return (Some info), st')).
Proof.
  destruct getProductInfo_returns as ([info|] & st' & E); [right | left]; eauto.
Qed.

(** Outside the declared type: a product that comes without a history
    (an answer of four values) makes [verifyProduct] raise a [TypeError]. *)
Lemma verifyProduct_without_history (expectedManufacturer : jsstring)
    (info : ProductInfo) (st' : State) :
  getProductInfo this productId st = (Return (Some info), st') ->
  history info = None ->
  verifyProduct this productId expectedManufacturer st = (Throw TypeError, st').
Proof.
  intros E Hh. unfold verifyProduct, bind, lift. rewrite E, Hh. reflexivity.
Qed.

End Queries.



(** The scenario of the specification: after one transfer,
    [verify("PROD-001", A)] is authentic with [transferCount] 1, and with
    another manufacturer it is not authentic. *)
Example verify_scenario :
  fst (verifyProduct (supplyChain None) (js "PROD-001") (js "0xa") (stub_initial one_product))
  = Return {| exists_ := true; isAuthentic := true;
              verified_manufacturer := Some (Some (MoveString (js "0xa")));
              verified_currentOwner := Some (Some (MoveString (js "0xb")));
              transferCount := Some (Some (MoveNumber 1)) |}
  /\
  fst (verifyProduct (supplyChain None) (js "PROD-001") (js "0xc") (stub_initial one_product))
  = Return {| exists_ := true; isAuthentic := false;
              verified_manufacturer := Some (Some (MoveString (js "0xa")));
              verified_currentOwner := Some (Some (MoveString (js "0xb")));
              transferCount := Some (Some (MoveNumber 1)) |}.
Proof. vm_compute. split; reflexivity. Qed.

Example endpoint_runs :
  fst (get_root None {| query_parameters := [(js "i", js "PROD-001")] |}
         (stub_initial one_product))
  = Return (json (JObject [(js "id", JString (js "PROD-001")); (js "exist", JBool true)]))
  /\
  fst (get_root None {| query_parameters := [(js "i", js "PROD-002")] |}
         (stub_initial one_product))
  = Return (json (JObject [(js "id", JString (js "PROD-002")); (js "exist", JBool false)]))
  /\
  trace (snd (get_root None {| query_parameters := [(js "i", js "PROD-002")] |}
                (stub_initial one_product)))
  = [Call_view {| view_function := js "0x1::SupplyChain::product_manager::get_product_info";
                  view_type_arguments := [];
                  view_arguments := [js "PROD-002"] |}].
Proof. vm_compute. repeat split; reflexivity. Qed.

Lemma malformed_metadata_is_null_witness :
  getProductInfo (supplyChain None) (js "PROD-001") (stub_initial one_corrupted)
  = (Return None,
     after_view (stub_initial one_corrupted) (js "PROD-001") tt
       [Call_console_error SyntaxError])
  /\
  fst (getProductInfo (supplyChain None) (js "PROD-002") (stub_initial one_corrupted))
  = fst (getProductInfo (supplyChain None) (js "PROD-001") (stub_initial one_corrupted)).
Proof.
  refine (_ (malformed_metadata_is_null (supplyChain None) (js "PROD-001")
               (stub_initial one_corrupted)
               (product_answer (js "PROD-001") (js "0xa") (js "0xa") (js "0x7b") [])
               tt SyntaxError _ _ _)).
  - intros [Malformed Same]. split; [exact Malformed|].
    apply (Same (supplyChain None) (js "PROD-002") (stub_initial one_corrupted) (Some []) tt);
      [reflexivity | now right].
  - reflexivity.
  - discriminate.
  - vm_compute. reflexivity.
Defined.

(** C4 fails on a product whose payload is the single character [{]:
    decoding throws, and the query returns [null], as it does on a node
    that holds no product. *)
Lemma malformed_like_not_found :
  deserializeMetadata (Some (MoveString (js "0x7b"))) = Throw SyntaxError /\
  fst (getProductInfo (supplyChain None) (js "PROD-001") (stub_initial corrupted_product))
  = Return None /\
  fst (getProductInfo (supplyChain None) (js "PROD-001") (stub_initial no_product))
  = Return None.
Proof. vm_compute. repeat split; reflexivity. Qed.

Lemma exists_collapses_every_failure_witness :
  checkOnChainExist (stub_company unreachable company_key) (js "PROD-001") (stub_initial unreachable)
  = (Return false,
     after_view (stub_initial unreachable) (js "PROD-001") tt
       [Call_console_error (ApiError (js "fetch failed"))]).
Proof.
  refine (proj1 (proj2 (exists_collapses_every_failure (stub_company unreachable company_key)
                          (js "PROD-001") (stub_initial unreachable)))
            (ApiError (js "fetch failed")) tt _).
  reflexivity.
Defined.

(** C7 fails on a node that cannot be reached: the view throws, nothing
    is raised to the caller, and the answer is [false]. *)
Lemma unreachable_node_is_false :
  fst (view (AptosSDK := stub unreachable) (js "node") (info_request (js "PROD-001")) tt)
  = Throw (ApiError (js "fetch failed")) /\
  fst (checkOnChainExist (stub_company unreachable company_key) (js "PROD-001")
         (stub_initial unreachable))
  = Return false.
Proof. vm_compute. split; reflexivity. Qed.

Section Answer.
Context `{AptosSDK}.

(** C8, as the code has it.  A request with a non-empty [i] query
    parameter is answered with the JSON object [{id, exist}], [id] the
    value of [i] and [exist] the result of [checkOnChainExist] on it.
    The only effect is the view of that check, and a line on the console
    when the check caught an error. *)
Theorem existence_endpoint (env : option jsstring) (req : Request) (id : jsstring) (st : State) :
  query req (js "i") = Some id ->
  id <> [] ->
  exists exist st',
    exported_checkOnChainExist env id st = (Return exist, st') /\
    get_root env req st
    = (Return (json (JObject [(js "id", JString id); (js "exist", JBool exist)])), st') /\
    world st' = snd (view (nodeUrl env) (info_request id) (world st)) /\
    (trace st' = trace st ++ [Call_view (info_request id)] \/
     exists e, trace st' = trace st ++ [Call_view (info_request id); Call_console_error e]).
Proof.
  intros Hq Hid.
  destruct (getProductInfo_returns (supplyChain env) id st) as (info & st' & E).
  exists (match info with Some _ => true | None => false end), st'.
  assert (C : exported_checkOnChainExist env id st
              = (Return (match info with Some _ => true | None => false end), st')).
  { unfold exported_checkOnChainExist, checkOnChainExist, bind. rewrite E. reflexivity. }
  split; [exact C|]. split.
  - unfold get_root. rewrite Hq.
    destruct id as [|c id]; [congruence|].
    unfold bind. rewrite C. reflexivity.
  - destruct (getProductInfo_effect _ _ _ _ _ E) as [W T].
    split; [exact W|].
    destruct T as [T | (e & _ & T)]; [now left | right; now exists e].
Qed.

End Answer.

Section Transfer.
Context `{AptosSDK}.



End Transfer.

Lemma existence_endpoint_witness :
  exists exist st',
    exported_checkOnChainExist None (js "PROD-001") (stub_initial one_product)
    = (Return exist, st') /\
    get_root None {| query_parameters := [(js "i", js "PROD-001")] |} (stub_initial one_product)
    = (Return (json (JObject [(js "id", JString (js "PROD-001")); (js "exist", JBool exist)])), st') /\
    world st' = snd (view (nodeUrl None) (info_request (js "PROD-001"))
                       (world (stub_initial one_product))) /\
    (trace st' = trace (stub_initial one_product) ++ [Call_view (info_request (js "PROD-001"))] \/
     exists e, trace st' = trace (stub_initial one_product)
                           ++ [Call_view (info_request (js "PROD-001")); Call_console_error e]).
Proof.
  apply (existence_endpoint None {| query_parameters := [(js "i", js "PROD-001")] |}).
  - reflexivity.
  - discriminate.
Defined.

(** C8 fails on a request that supplies [id]: the handler reads [i],
    finds nothing, and answers [MISSING ID] for a product that exists. *)
Lemma id_parameter_is_not_read :
  let req := {| query_parameters := [(js "id", js "PROD-001")] |} in
  query req (js "id") = Some (js "PROD-001") /\
  fst (exported_checkOnChainExist None (js "PROD-001") (stub_initial one_product)) = Return true /\
  get_root None req (stub_initial one_product)
  = (Return (json (JObject [(js "message", JString (js "MISSING ID"))])),
     stub_initial one_product) /\
  fst (get_root None req (stub_initial one_product))
  <> Return (json (JObject [(js "id", JString (js "PROD-001")); (js "exist", JBool true)])).
Proof. intros req. vm_compute. repeat split; try reflexivity. discriminate. Qed.



(** ** Scan payloads *)

Lemma after_first_eq (m s : jsstring) :
  after_first m s =
  if startsWith m s then Some (skipn (List.length m) s)
  else match s with
       | [] => None
       | _ :: s' => after_first m s'
       end.
Proof. destruct s; reflexivity. Qed.

(** A pattern without a slash cannot reach across a slash. *)
Lemma startsWith_before_slash (p a r : jsstring) :
  no_slash p = true -> startsWith p (a ++ 47 :: r) = startsWith p a.
Proof.
  revert a. induction p as [|x p IH]; intros a Hp; [reflexivity|].
  simpl in Hp. apply andb_prop in Hp as [Hx Hp].
  destruct a as [|y a]; simpl.
  - apply negb_true_iff in Hx. rewrite Hx. reflexivity.
  - rewrite IH by exact Hp. reflexivity.
Qed.

Lemma after_first_app (m a x : jsstring) :
  no_slash m = true ->
  after_first (47 :: m) a = None ->
  after_first (47 :: m) (a ++ (47 :: m) ++ x) = Some x.
Proof.
  intros Hm. induction a as [|c a IH]; intros Ha.
  - rewrite after_first_eq. cbn [app].
    change (47 :: m ++ x) with ((47 :: m) ++ x).
    rewrite startsWith_app, skipn_app_length. reflexivity.
  - rewrite after_first_eq in Ha.
    destruct (startsWith (47 :: m) (c :: a)) eqn:S; [discriminate|].
    rewrite after_first_eq.
    replace (startsWith (47 :: m) ((c :: a) ++ (47 :: m) ++ x)) with false.
    + apply IH, Ha.
    + rewrite <- S. cbn [app startsWith].
      rewrite (startsWith_before_slash m a (m ++ x) Hm). reflexivity.
Qed.

Lemma after_first_sound (m s x : jsstring) :
  after_first m s = Some x -> exists u, s = u ++ m ++ x.
Proof.
  induction s as [|c s IH]; rewrite after_first_eq.
  - destruct (startsWith m []) eqn:S; [|discriminate].
    intros [= <-]. exists []. apply startsWith_split, S.
  - destruct (startsWith m (c :: s)) eqn:S.
    + intros [= <-]. exists []. apply startsWith_split, S.
    + intros E. destruct (IH E) as [u ->]. exists (c :: u). reflexivity.
Qed.

Lemma after_first_complete (m u x : jsstring) : after_first m (u ++ m ++ x) <> None.
Proof.
  induction u as [|c u IH]; rewrite after_first_eq.
  - cbn [app]. rewrite startsWith_app. discriminate.
  - destruct (startsWith m ((c :: u) ++ m ++ x)); [discriminate | exact IH].
Qed.

(** C5, for the parser modelled from the specification.  The bare form
    parses back to its id.  The URL form parses back to its id for every
    app URL that does not begin with [supplychain:product:] and does not
    contain [/verify?id=].  A string is accepted exactly when it is the
    scheme prefix followed by an id, or some text, [/verify?id=] and an
    id; every other string is a [ParseError]. *)
Theorem scan_payload_roundtrip (x : jsstring) :
  fromScanPayload (toScanPayload x None) = ScanId x /\
  (forall url,
      startsWith (js "supplychain:product:") url = false ->
      includes (js "/verify?id=") url = false ->
      fromScanPayload (toScanPayload x (Some url)) = ScanId x) /\
  (forall s,
      fromScanPayload s <> ParseError <->
      (exists y, s = js "supplychain:product:" ++ y) \/
      (exists u y, s = u ++ js "/verify?id=" ++ y)).
Proof.
  assert (Bare : forall y, fromScanPayload (js "supplychain:product:" ++ y) = ScanId y).
  { intros y. unfold fromScanPayload.
    rewrite startsWith_app, skipn_app_length. reflexivity. }
  split; [apply Bare|]. split.
  - intros [|c url] Hs Hi; [apply Bare|].
    unfold toScanPayload, generateProductQrData, fromScanPayload.
    assert (S : startsWith (js "supplychain:product:") ((c :: url) ++ js "/verify?id=" ++ x)
                = startsWith (js "supplychain:product:") (c :: url)).
    { apply (startsWith_before_slash _ (c :: url) (js "verify?id=" ++ x)). reflexivity. }
    rewrite S, Hs. unfold includes in Hi.
    destruct (after_first (js "/verify?id=") (c :: url)) eqn:A; [discriminate|].
    assert (F : after_first (js "/verify?id=") ((c :: url) ++ js "/verify?id=" ++ x) = Some x).
    { apply (after_first_app (js "verify?id=") (c :: url) x); [reflexivity | exact A]. }
    rewrite F. reflexivity.
  - intros s. unfold fromScanPayload. split.
    + destruct (startsWith (js "supplychain:product:") s) eqn:S.
      * intros _. left. eexists. apply startsWith_split, S.
      * destruct (after_first (js "/verify?id=") s) as [y|] eqn:A; [|congruence].
        intros _. right. destruct (after_first_sound _ _ _ A) as [u ->]. now exists u, y.
    + intros [[y ->] | (u & y & ->)].
      * rewrite startsWith_app. discriminate.
      * destruct (startsWith (js "supplychain:product:") (u ++ js "/verify?id=" ++ y));
          [discriminate|].
        destruct (after_first (js "/verify?id=") (u ++ js "/verify?id=" ++ y)) eqn:A;
          [discriminate|].
        now apply after_first_complete in A.
Qed.

Lemma scan_payload_roundtrip_witness :
  fromScanPayload (toScanPayload (js "123") (Some (js "https://example.com"))) = ScanId (js "123").
Proof.
  apply (proj1 (proj2 (scan_payload_roundtrip (js "123"))) (js "https://example.com"));
    reflexivity.
Defined.

(** C5 fails for an app URL that contains [/verify?id=]: the payload of
    id 1 under the app URL [https://app/verify?id=z] is also the payload of
    id [z/verify?id=1] under [https://app], and parses to the latter. *)
Lemma url_form_collision :
  toScanPayload (js "1") (Some (js "https://app/verify?id=z"))
  = toScanPayload (js "z/verify?id=1") (Some (js "https://app")) /\
  fromScanPayload (toScanPayload (js "1") (Some (js "https://app/verify?id=z")))
  = ScanId (js "z/verify?id=1") /\
  fromScanPayload (toScanPayload (js "1") (Some (js "https://app/verify?id=z")))
  <> ScanId (js "1").
Proof. vm_compute. repeat split; try reflexivity. discriminate. Qed.

(** No parser at all inverts the URL form for every id and every app
    URL: two different ids share a payload. *)
Lemma no_parser_inverts_url_form (parse : jsstring -> ScanResult) :
  ~ (forall x url, parse (toScanPayload x (Some url)) = ScanId x).
Proof.
  intros P.
  pose proof (P (js "1") (js "https://app/verify?id=z")) as P1.
  pose proof (P (js "z/verify?id=1") (js "https://app")) as P2.
  change (toScanPayload (js "1") (Some (js "https://app/verify?id=z")))
    with (toScanPayload (js "z/verify?id=1") (Some (js "https://app"))) in P1.
  rewrite P1 in P2. discriminate P2.
Qed.

(** ** JSON.parse never runs out of fuel *)

Lemma skip_ws_length (s : jsstring) : (List.length (skip_ws s) <= List.length s)%nat.
Proof.
  induction s as [|c s IH]; simpl; [lia|].
  destruct (is_ws c); simpl; lia.
Qed.

Lemma skip_ws_cons (s r : jsstring) (c : Z) :
  skip_ws s = c :: r -> (List.length r < List.length s)%nat.
Proof.
  intros E. pose proof (skip_ws_length s) as L. rewrite E in L. simpl in L. lia.
Qed.

Lemma cons_unit_some (c : Z) (p : option (jsstring * jsstring)) (str r : jsstring) :
  cons_unit c p = Some (str, r) -> exists str', p = Some (str', r) /\ str = c :: str'.
Proof.
  destruct p as [[str' r']|]; simpl; [|discriminate].
  intros [= <- <-]. now exists str'.
Qed.

Lemma parse_string_length (s str r : jsstring) :
  parse_string s = Some (str, r) -> (List.length r < List.length s)%nat.
Proof.
  remember (List.length s) as n eqn:Hn. revert s str r Hn.
  induction n as [n IH] using lt_wf_ind. intros s str r -> E.
  destruct s as [|c s]; simpl in E; [discriminate|].
  destruct (c =? 34).
  { injection E as <- <-. simpl. lia. }
  destruct (c =? 92).
  - destruct s as [|e s]; [discriminate|].
    destruct (e =? 117).
    + destruct s as [|h1 [|h2 [|h3 [|h4 s]]]]; try discriminate.
      destruct (unhex4 h1 h2 h3 h4); [|discriminate].
      apply cons_unit_some in E as (str' & E & _).
      apply (IH (List.length s)) in E; simpl; try lia; reflexivity.
    + destruct (unescape e); [|discriminate].
      apply cons_unit_some in E as (str' & E & _).
      apply (IH (List.length s)) in E; simpl; try lia; reflexivity.
  - destruct (c <? 32); [discriminate|].
    apply cons_unit_some in E as (str' & E & _).
    apply (IH (List.length s)) in E; simpl; try lia; reflexivity.
Qed.

Lemma take_digits_length (s : jsstring) (acc n v k : Z) (r : jsstring) :
  take_digits s acc n = (v, k, r) -> (List.length r <= List.length s)%nat.
Proof.
  revert acc n. induction s as [|c s IH]; intros acc n; simpl.
  - intros [= <- <- <-]. simpl. lia.
  - destruct (is_digit c).
    + intros E. apply IH in E. lia.
    + intros [= <- <- <-]. simpl. lia.
Qed.

Lemma parse_fraction_length (ip : Z) (s : jsstring) (m fe : Z) (r : jsstring) :
  parse_fraction ip s = Some (m, fe, r) -> (List.length r <= List.length s)%nat.
Proof.
  unfold parse_fraction. destruct s as [|c s].
  - intros [= <- <- <-]. simpl. lia.
  - destruct (c =? 46).
    + destruct (take_digits s ip 0) as [[v n] r'] eqn:T.
      apply take_digits_length in T.
      destruct (n =? 0); [discriminate|].
      intros [= <- <- <-]. simpl. lia.
    + intros [= <- <- <-]. lia.
Qed.

Lemma parse_sign_length (s : jsstring) (sign : Z) (r : jsstring) :
  parse_sign s = (sign, r) -> (List.length r <= List.length s)%nat.
Proof.
  unfold parse_sign. destruct s as [|x s].
  - intros [= <- <-]. lia.
  - destruct (x =? 43); [intros [= <- <-]; simpl; lia|].
    destruct (x =? 45); intros [= <- <-]; simpl; lia.
Qed.

Lemma parse_exponent_length (s : jsstring) (ex : Z) (r : jsstring) :
  parse_exponent s = Some (ex, r) -> (List.length r <= List.length s)%nat.
Proof.
  unfold parse_exponent. destruct s as [|c s].
  - intros [= <- <-]. simpl. lia.
  - destruct ((c =? 101) || (c =? 69)).
    + destruct (parse_sign s) as [sign r1] eqn:Sg.
      apply parse_sign_length in Sg.
      destruct (take_digits r1 0 0) as [[v n] r2] eqn:T.
      apply take_digits_length in T.
      destruct (n =? 0); [discriminate|].
      intros [= <- <-]. simpl. lia.
    + intros [= <- <-]. lia.
Qed.

Lemma parse_minus_length (s : jsstring) (neg : bool) (r : jsstring) :
  parse_minus s = (neg, r) -> (List.length r <= List.length s)%nat.
Proof.
  unfold parse_minus. destruct s as [|c s].
  - intros [= <- <-]. lia.
  - destruct (c =? 45); intros [= <- <-]; simpl; lia.
Qed.

Lemma parse_integer_length (d : Z) (s : jsstring) (ip : Z) (r : jsstring) :
  is_digit d = true ->
  parse_integer d s = (ip, r) -> (List.length r <= List.length s)%nat.
Proof.
  intros D. unfold parse_integer.
  destruct (d =? 48); [intros [= <- <-]; lia|].
  cbn [take_digits]. rewrite D.
  destruct (take_digits s _ _) as [[v0 k] r'] eqn:T.
  apply take_digits_length in T. intros [= <- <-]. exact T.
Qed.

Lemma parse_number_length (s : jsstring) (v : JsValue) (r : jsstring) :
  parse_number s = Some (v, r) -> (List.length r < List.length s)%nat.
Proof.
  unfold parse_number.
  destruct (parse_minus s) as [neg s1] eqn:N. apply parse_minus_length in N.
  destruct s1 as [|d r0]; [discriminate|].
  destruct (is_digit d) eqn:D; [|discriminate].
  destruct (parse_integer d r0) as [ip s2] eqn:I.
  apply (parse_integer_length _ _ _ _ D) in I.
  destruct (parse_fraction ip s2) as [[[m fe] s3]|] eqn:F; [|discriminate].
  apply parse_fraction_length in F.
  destruct (parse_exponent s3) as [[ex s4]|] eqn:X; [|discriminate].
  apply parse_exponent_length in X.
  intros [= <- <-]. simpl in N. lia.
Qed.

(** With fuel above twice the length of the input, the parser answers
    and its answer leaves less input than it was given. *)
Lemma parse_fuel (fuel : nat) :
  (forall s, (2 * List.length s < fuel)%nat ->
     parse_value fuel s <> Out_of_fuel /\
     forall v r, parse_value fuel s = Parsed_ok v r -> (List.length r < List.length s)%nat) /\
  (forall s acc, (2 * List.length s + 1 < fuel)%nat ->
     parse_elements fuel s acc <> Out_of_fuel /\
     forall v r, parse_elements fuel s acc = Parsed_ok v r -> (List.length r < List.length s)%nat) /\
  (forall s acc, (2 * List.length s + 1 < fuel)%nat ->
     parse_members fuel s acc <> Out_of_fuel /\
     forall v r, parse_members fuel s acc = Parsed_ok v r -> (List.length r < List.length s)%nat).
Proof.
  induction fuel as [|f (IHv & IHe & IHm)].
  { repeat split; intros; lia. }
  split; [|split].
  - intros s Hs. cbn [parse_value].
    destruct (skip_ws s) as [|c r] eqn:W; [split; [discriminate | intros; discriminate]|].
    apply skip_ws_cons in W.
    destruct (c =? 123).
    { destruct (skip_ws r) as [|c' r'] eqn:W'; [split; [discriminate | intros; discriminate]|].
      apply skip_ws_cons in W'.
      destruct (c' =? 125).
      - split; [discriminate|]. intros v r0 [= <- <-]. lia.
      - destruct (IHm r [] ltac:(lia)) as [Hf Hl]. split; [exact Hf|].
        intros v r0 E. apply Hl in E. lia. }
    destruct (c =? 91).
    { destruct (skip_ws r) as [|c' r'] eqn:W'; [split; [discriminate | intros; discriminate]|].
      apply skip_ws_cons in W'.
      destruct (c' =? 93).
      - split; [discriminate|]. intros v r0 [= <- <-]. lia.
      - destruct (IHe r [] ltac:(lia)) as [Hf Hl]. split; [exact Hf|].
        intros v r0 E. apply Hl in E. lia. }
    destruct (c =? 34).
    { destruct (parse_string r) as [[str r']|] eqn:P; [|split; [discriminate | intros; discriminate]].
      apply parse_string_length in P.
      split; [discriminate|]. intros v r0 [= <- <-]. lia. }
    destruct ((c =? 45) || is_digit c).
    { destruct (parse_number (c :: r)) as [[v0 r']|] eqn:P;
        [|split; [discriminate | intros; discriminate]].
      apply parse_number_length in P. simpl in P.
      split; [discriminate|]. intros v r0 [= <- <-]. lia. }
    assert (K : forall n, (List.length (skipn (S n) (c :: r)) < List.length s)%nat).
    { intros n. rewrite length_skipn. simpl. lia. }
    destruct (startsWith (js "true") (c :: r)).
    { split; [discriminate|]. intros v r0 [= <- <-]. apply (K 3%nat). }
    destruct (startsWith (js "false") (c :: r)).
    { split; [discriminate|]. intros v r0 [= <- <-]. apply (K 4%nat). }
    destruct (startsWith (js "null") (c :: r)).
    { split; [discriminate|]. intros v r0 [= <- <-]. apply (K 3%nat). }
    split; [discriminate | intros; discriminate].
  - intros s acc Hs. cbn [parse_elements].
    destruct (IHv s ltac:(lia)) as [Hf Hl].
    destruct (parse_value f s) as [v r| |] eqn:P;
      [|split; [discriminate | intros; discriminate] | congruence].
    specialize (Hl v r eq_refl).
    destruct (skip_ws r) as [|c r'] eqn:W; [split; [discriminate | intros; discriminate]|].
    apply skip_ws_cons in W.
    destruct (c =? 44).
    { destruct (IHe r' (v :: acc) ltac:(lia)) as [Hf' Hl']. split; [exact Hf'|].
      intros v0 r0 E. apply Hl' in E. lia. }
    destruct (c =? 93).
    { split; [discriminate|]. intros v0 r0 [= <- <-]. lia. }
    split; [discriminate | intros; discriminate].
  - intros s acc Hs. cbn [parse_members].
    destruct (skip_ws s) as [|q r] eqn:W; [split; [discriminate | intros; discriminate]|].
    apply skip_ws_cons in W.
    destruct (q =? 34); [|split; [discriminate | intros; discriminate]].
    destruct (parse_string r) as [[k r1]|] eqn:P; [|split; [discriminate | intros; discriminate]].
    apply parse_string_length in P.
    destruct (skip_ws r1) as [|c r2] eqn:W1; [split; [discriminate | intros; discriminate]|].
    apply skip_ws_cons in W1.
    destruct (c =? 58); [|split; [discriminate | intros; discriminate]].
    destruct (IHv r2 ltac:(lia)) as [Hf Hl].
    destruct (parse_value f r2) as [v r3| |] eqn:V;
      [|split; [discriminate | intros; discriminate] | congruence].
    specialize (Hl v r3 eq_refl).
    destruct (skip_ws r3) as [|c' r4] eqn:W3; [split; [discriminate | intros; discriminate]|].
    apply skip_ws_cons in W3.
    destruct (c' =? 44).
    { destruct (IHm r4 (define_property k v acc) ltac:(lia)) as [Hf' Hl']. split; [exact Hf'|].
      intros v0 r0 E. apply Hl' in E. lia. }
    destruct (c' =? 125).
    { split; [discriminate|]. intros v0 r0 [= <- <-]. lia. }
    split; [discriminate | intros; discriminate].
Qed.

(** The fuel [JSON_parse] gives is enough for every text. *)
Lemma parse_value_fuel (text : jsstring) :
  parse_value (2 * List.length text + 1) text <> Out_of_fuel.
Proof. apply parse_fuel. lia. Qed.


(** ** Metadata through the ledger *)

Lemma set_property_no_Date (k : jsstring) (v : JsValue) (props : list (jsstring * JsValue)) :
  has_Date v = false -> props_no_Date props = true ->
  props_no_Date (set_property k v props) = true.
Proof.
  unfold props_no_Date. intros Hv.
  induction props as [|[k' v'] props IH]; simpl; [reflexivity|].
  rewrite !negb_orb. intros Hp. apply andb_prop in Hp as [H1 H2].
  destruct (str_eqb k k'); simpl; rewrite negb_orb.
  - rewrite Hv, H2. reflexivity.
  - rewrite H1. apply IH, H2.
Qed.

Lemma insert_property_no_Date (k : jsstring) (v : JsValue) (props : list (jsstring * JsValue)) :
  has_Date v = false -> props_no_Date props = true ->
  props_no_Date (insert_property k v props) = true.
Proof.
  unfold props_no_Date. intros Hv.
  induction props as [|[k' v'] props IH]; simpl.
  - rewrite Hv. reflexivity.
  - rewrite !negb_orb. intros Hp. pose proof Hp as Hp'. apply andb_prop in Hp as [H1 H2].
    destruct (array_index k) as [i|]; [destruct (array_index k') as [i'|]; [destruct (i <? i')|]|];
      simpl; rewrite ?negb_orb, ?Hv, ?H1; simpl;
      solve [ rewrite <- negb_orb; exact Hp' | apply IH, H2 | exact H2 ].
Qed.

Lemma define_property_no_Date (k : jsstring) (v : JsValue) (props : list (jsstring * JsValue)) :
  has_Date v = false -> props_no_Date props = true ->
  props_no_Date (define_property k v props) = true.
Proof.
  intros Hv Hp. unfold define_property. destruct (has_property k props).
  - apply set_property_no_Date; assumption.
  - apply insert_property_no_Date; assumption.
Qed.

Lemma parse_number_no_Date (s : jsstring) (v : JsValue) (r : jsstring) :
  parse_number s = Some (v, r) -> has_Date v = false.
Proof.
  unfold parse_number.
  destruct (parse_minus s) as [neg s1].
  destruct s1 as [|d r0]; [discriminate|].
  destruct (is_digit d); [|discriminate].
  destruct (parse_integer d r0) as [ip s2].
  destruct (parse_fraction ip s2) as [[[m fe] s3]|]; [|discriminate].
  destruct (parse_exponent s3) as [[ex s4]|]; [|discriminate].
  intros [= <- <-]. reflexivity.
Qed.

Lemma existsb_reverse {A} (f : A -> bool) (l : list A) : existsb f (rev l) = existsb f l.
Proof.
  induction l as [|x l IH]; simpl; [reflexivity|].
  rewrite existsb_app, IH. simpl. rewrite orb_false_r. apply orb_comm.
Qed.

(** [JSON.parse] builds no [Date]. *)
Lemma parse_no_Date (fuel : nat) :
  (forall s v r, parse_value fuel s = Parsed_ok v r -> has_Date v = false) /\
  (forall s acc v r,
      existsb has_Date acc = false ->
      parse_elements fuel s acc = Parsed_ok v r -> has_Date v = false) /\
  (forall s acc v r,
      props_no_Date acc = true ->
      parse_members fuel s acc = Parsed_ok v r -> has_Date v = false).
Proof.
  induction fuel as [|f (IHv & IHe & IHm)].
  { repeat split; intros; discriminate. }
  split; [|split].
  - intros s v r. cbn [parse_value].
    destruct (skip_ws s) as [|c r0]; [discriminate|].
    destruct (c =? 123).
    { destruct (skip_ws r0) as [|c' r']; [discriminate|].
      destruct (c' =? 125); [intros [= <- <-]; reflexivity|].
      apply IHm. reflexivity. }
    destruct (c =? 91).
    { destruct (skip_ws r0) as [|c' r']; [discriminate|].
      destruct (c' =? 93); [intros [= <- <-]; reflexivity|].
      apply IHe. reflexivity. }
    destruct (c =? 34).
    { destruct (parse_string r0) as [[str r']|]; [|discriminate].
      intros [= <- <-]. reflexivity. }
    destruct ((c =? 45) || is_digit c).
    { destruct (parse_number (c :: r0)) as [[v0 r']|] eqn:P; [|discriminate].
      intros [= <- <-]. apply (parse_number_no_Date _ _ _ P). }
    destruct (startsWith (js "true") (c :: r0)); [intros [= <- <-]; reflexivity|].
    destruct (startsWith (js "false") (c :: r0)); [intros [= <- <-]; reflexivity|].
    destruct (startsWith (js "null") (c :: r0)); [intros [= <- <-]; reflexivity|].
    discriminate.
  - intros s acc v r Hacc. cbn [parse_elements].
    destruct (parse_value f s) as [v0 r0| |] eqn:P; try discriminate.
    apply IHv in P.
    destruct (skip_ws r0) as [|c r']; [discriminate|].
    destruct (c =? 44).
    { apply IHe. simpl. rewrite P, Hacc. reflexivity. }
    destruct (c =? 93); [|discriminate].
    intros [= <- <-]. cbn [has_Date rev]. rewrite existsb_app, existsb_reverse.
    simpl. rewrite P, Hacc. reflexivity.
  - intros s acc v r Hacc. cbn [parse_members].
    destruct (skip_ws s) as [|q r0]; [discriminate|].
    destruct (q =? 34); [|discriminate].
    destruct (parse_string r0) as [[k r1]|]; [|discriminate].
    destruct (skip_ws r1) as [|c r2]; [discriminate|].
    destruct (c =? 58); [|discriminate].
    destruct (parse_value f r2) as [v0 r3| |] eqn:P; try discriminate.
    apply IHv in P.
    pose proof (define_property_no_Date k v0 acc P Hacc) as D.
    destruct (skip_ws r3) as [|c' r4]; [discriminate|].
    destruct (c' =? 44); [apply IHm, D|].
    destruct (c' =? 125); [|discriminate].
    intros [= <- <-]. cbn [has_Date]. unfold props_no_Date in D.
    apply negb_true_iff in D. exact D.
Qed.

Lemma JSON_parse_no_Date (text : jsstring) (v : JsValue) :
  JSON_parse text = Return v -> has_Date v = false.
Proof.
  unfold JSON_parse.
  destruct (parse_value (2 * List.length text + 1) text) as [v0 r| |] eqn:P; try discriminate.
  destruct (skip_ws r); [|discriminate].
  intros [= <-]. apply (proj1 (parse_no_Date _) _ _ _ P).
Qed.

(** Whatever the metadata, what [getProductInfo] decodes from the
    payload of [mintProduct] is not the metadata that was minted: the
    minted object holds a [Date], the decoded one cannot. *)
Lemma decoded_metadata_differs (m : ProductMetadata) :
  deserializeMetadata (Some (MoveString (js "0x" ++ serializeMetadata m)))
  <> Return (ProductMetadata_value m).
Proof.
  unfold deserializeMetadata. cbn [toString MoveValue_toString].
  intros E. apply JSON_parse_no_Date in E.
  unfold ProductMetadata_value in E. cbn [has_Date app existsb snd] in E.
  rewrite !orb_true_r in E. discriminate E.
Qed.

(** C1 on the metadata [{name: 'Shoe', description: 'Left',
    dateManufactured: new Date(0)}].  [mintProduct] sends its payload, and
    from that payload [getProductInfo] decodes an object whose
    [dateManufactured] is the string "1970-01-01T00:00:00.000Z", not the
    [Date] that was minted; the two optional fields, absent before, are
    absent after. *)
Theorem minted_Date_comes_back_as_string :
  In (Call_generateTransaction (address (stub_account no_product company_key))
        {| function_ := js "0x1::SupplyChain::product_manager::mint_product";
           type_arguments := [];
           arguments := [js "PROD-001"; js "0x" ++ serializeMetadata shoe] |})
     (trace (snd (mintProduct (stub_company no_product company_key) (js "PROD-001") shoe
                    (stub_initial no_product))))
  /\
  deserializeMetadata (Some (MoveString (js "0x" ++ serializeMetadata shoe)))
  = Return (JObject [(js "name", JString (js "Shoe"));
                     (js "description", JString (js "Left"));
                     (js "dateManufactured", JString (js "1970-01-01T00:00:00.000Z"))])
  /\
  ProductMetadata_value shoe
  = JObject [(js "name", JString (js "Shoe"));
             (js "description", JString (js "Left"));
             (js "dateManufactured", JDate (Some 0))]
  /\
  deserializeMetadata (Some (MoveString (js "0x" ++ serializeMetadata shoe)))
  <> Return (ProductMetadata_value shoe).
Proof.
  split; [vm_compute; tauto|].
  split; [vm_compute; reflexivity|].
  split; [reflexivity|].
  vm_compute. discriminate.
Qed.

(** ** Bits as arithmetic *)

Lemma lor_shiftl_low (a x k : Z) :
  0 <= k -> 0 <= x < 2 ^ k -> Z.lor (Z.shiftl a k) x = a * 2 ^ k + x.
Proof.
  intros Hk Hx.
  assert (L : Z.land (Z.shiftl a k) x = 0).
  { apply Z.bits_inj'. intros n Hn.
    rewrite Z.land_spec, Z.bits_0.
    destruct (Z.ltb_spec n k) as [Lt|Ge].
    - rewrite Z.shiftl_spec_low by lia. reflexivity.
    - rewrite <- (Z.mod_small x (2 ^ k)) by lia.
      rewrite Z.mod_pow2_bits_high by lia. apply andb_false_r. }
  rewrite <- Z.lxor_lor by exact L.
  rewrite <- Z.add_nocarry_lxor by exact L.
  rewrite Z.shiftl_mul_pow2 by lia. reflexivity.
Qed.

Lemma lor_const (c a x k : Z) :
  c = a * 2 ^ k -> 0 <= k -> 0 <= x < 2 ^ k -> Z.lor c x = c + x.
Proof.
  intros -> Hk Hx. rewrite <- (Z.shiftl_mul_pow2 a k) by lia.
  rewrite lor_shiftl_low by lia. rewrite Z.shiftl_mul_pow2 by lia. reflexivity.
Qed.

Lemma land_low (a m k : Z) : m = Z.ones k -> 0 <= k -> Z.land a m = a mod 2 ^ k.
Proof. intros -> Hk. apply Z.land_ones, Hk. Qed.

(** Shifts, masks and disjoint unions as quotients, remainders and sums. *)
Ltac arith_bits :=
  repeat match goal with
    | |- context [Z.shiftr ?a ?k] => rewrite (Z.shiftr_div_pow2 a k) by lia
    | |- context [Z.shiftl ?a ?k] => rewrite (Z.shiftl_mul_pow2 a k) by lia
    | |- context [Z.land ?a 0x3F] => rewrite (land_low a 0x3F 6) by (reflexivity || lia)
    | |- context [Z.land ?a 0x1F] => rewrite (land_low a 0x1F 5) by (reflexivity || lia)
    | |- context [Z.land ?a 0x3FF] => rewrite (land_low a 0x3FF 10) by (reflexivity || lia)
    | |- context [Z.land ?a 15] => rewrite (land_low a 15 4) by (reflexivity || lia)
    | |- context [Z.land ?a 7] => rewrite (land_low a 7 3) by (reflexivity || lia)
    end;
  change (2 ^ 3) with 8 in *; change (2 ^ 4) with 16 in *; change (2 ^ 5) with 32 in *;
  change (2 ^ 6) with 64 in *; change (2 ^ 8) with 256 in *; change (2 ^ 10) with 1024 in *;
  change (2 ^ 12) with 4096 in *; change (2 ^ 18) with 262144 in *.

(** Linear arithmetic with quotients and remainders by constants. *)
Ltac div_lia := Z.div_mod_to_equations; lia.

(** ** Hex *)

Lemma unhex_hex_digit (n : Z) : 0 <= n < 16 -> unhex (hex_digit n) = Some n.
Proof.
  intros Hn. unfold hex_digit, unhex.
  destruct (Z.ltb_spec n 10).
  - replace ((48 <=? 48 + n) && (48 + n <=? 57)) with true
      by (symmetry; apply andb_true_intro; split; apply Z.leb_le; lia).
    f_equal. lia.
  - replace ((48 <=? 87 + n) && (87 + n <=? 57)) with false
      by (symmetry; apply andb_false_intro2; apply Z.leb_gt; lia).
    replace ((97 <=? 87 + n) && (87 + n <=? 102)) with true
      by (symmetry; apply andb_true_intro; split; apply Z.leb_le; lia).
    f_equal. lia.
Qed.

(** A hex digit is its own low byte. *)
Lemma hex_digit_low (n : Z) : 0 <= n < 16 -> Z.land (hex_digit n) 0xFF = hex_digit n.
Proof.
  intros Hn. rewrite (land_low _ 0xFF 8) by (reflexivity || lia).
  apply Z.mod_small. unfold hex_digit. change (2 ^ 8) with 256.
  destruct (n <? 10); lia.
Qed.

Lemma hex_roundtrip (b : Buffer) :
  Forall is_byte b -> Buffer_from_hex (Buffer_toString_hex b) = b.
Proof.
  induction 1 as [|x b Hx _ IH]; [reflexivity|].
  unfold is_byte in Hx.
  cbn [Buffer_toString_hex flat_map app Buffer_from_hex].
  fold (Buffer_toString_hex b).
  assert (H1 : 0 <= Z.shiftr x 4 < 16) by (arith_bits; div_lia).
  assert (H2 : 0 <= Z.land x 15 < 16) by (arith_bits; div_lia).
  rewrite (hex_digit_low _ H1), (hex_digit_low _ H2).
  rewrite (unhex_hex_digit _ H1), (unhex_hex_digit _ H2), IH.
  f_equal. rewrite lor_shiftl_low by (change (2 ^ 4) with 16; lia).
  arith_bits. div_lia.
Qed.

(** ** UTF-8 *)

Lemma between (lo x hi : Z) : lo <= x <= hi -> (lo <=? x) && (x <=? hi) = true.
Proof. intros H. apply andb_true_intro. split; apply Z.leb_le; lia. Qed.

Lemma not_between (lo x hi : Z) : x < lo \/ hi < x -> (lo <=? x) && (x <=? hi) = false.
Proof.
  intros [H|H].
  - apply andb_false_intro1, Z.leb_gt, H.
  - apply andb_false_intro2, Z.leb_gt, H.
Qed.

Lemma utf8_lead_1 (b : Z) : b < 0x80 -> utf8_lead b = ([b], None).
Proof. intros H. unfold utf8_lead. apply Z.ltb_lt in H. rewrite H. reflexivity. Qed.

Lemma utf8_lead_2 (b : Z) :
  0xC2 <= b <= 0xDF ->
  utf8_lead b
  = ([], Some {| needed := 1; code_point := b - 0xC0; lower := 0x80; upper := 0xBF |}).
Proof.
  intros H. unfold utf8_lead.
  replace (b <? 0x80) with false by (symmetry; apply Z.ltb_ge; lia).
  rewrite (between 0xC2 b 0xDF H).
  do 3 f_equal. arith_bits. div_lia.
Qed.

Lemma utf8_lead_3 (b : Z) :
  0xE0 <= b <= 0xEF ->
  utf8_lead b
  = ([], Some {| needed := 2; code_point := b - 0xE0;
                 lower := if b =? 0xE0 then 0xA0 else 0x80;
                 upper := if b =? 0xED then 0x9F else 0xBF |}).
Proof.
  intros H. unfold utf8_lead.
  replace (b <? 0x80) with false by (symmetry; apply Z.ltb_ge; lia).
  rewrite (not_between 0xC2 b 0xDF) by lia.
  rewrite (between 0xE0 b 0xEF H).
  do 3 f_equal. arith_bits. div_lia.
Qed.

Lemma utf8_lead_4 (b : Z) :
  0xF0 <= b <= 0xF4 ->
  utf8_lead b
  = ([], Some {| needed := 3; code_point := b - 0xF0;
                 lower := if b =? 0xF0 then 0x90 else 0x80;
                 upper := if b =? 0xF4 then 0x8F else 0xBF |}).
Proof.
  intros H. unfold utf8_lead.
  replace (b <? 0x80) with false by (symmetry; apply Z.ltb_ge; lia).
  rewrite (not_between 0xC2 b 0xDF) by lia.
  rewrite (not_between 0xE0 b 0xEF) by lia.
  rewrite (between 0xF0 b 0xF4 H).
  do 3 f_equal. arith_bits. div_lia.
Qed.

Lemma utf8_decode_lead (x : Z) (b : Buffer) :
  utf8_decode None (x :: b) = fst (utf8_lead x) ++ utf8_decode (snd (utf8_lead x)) b.
Proof. cbn [utf8_decode]. destruct (utf8_lead x). reflexivity. Qed.

(** A continuation byte in the range the decoder expects. *)
Lemma utf8_continue (p : utf8_pending) (x : Z) (b : Buffer) :
  lower p <= x <= upper p -> 0x80 <= x <= 0xBF ->
  utf8_decode (Some p) (x :: b)
  = match needed p with
    | S (S n) =>
        utf8_decode (Some {| needed := S n; code_point := code_point p * 64 + (x - 0x80);
                             lower := 0x80; upper := 0xBF |}) b
    | _ => code_units (code_point p * 64 + (x - 0x80)) ++ utf8_decode None b
    end.
Proof.
  intros H1 H2. cbn [utf8_decode]. rewrite (between _ _ _ H1).
  assert (E : Z.lor (Z.shiftl (code_point p) 6) (Z.land x 0x3F)
              = code_point p * 64 + (x - 0x80)).
  { rewrite lor_shiftl_low; arith_bits; div_lia. }
  rewrite E. reflexivity.
Qed.

Lemma utf8_scalar (cp : Z) (rest : Buffer) :
  is_scalar cp ->
  utf8_decode None (utf8_of_code_point cp ++ rest) = code_units cp ++ utf8_decode None rest.
Proof.
  intros [R S]. unfold utf8_of_code_point.
  destruct (Z.ltb_spec cp 0x80) as [H1|H1].
  { cbn [app]. rewrite utf8_decode_lead, utf8_lead_1 by lia.
    unfold code_units. replace (cp <? 0x10000) with true by (symmetry; apply Z.ltb_lt; lia).
    reflexivity. }
  destruct (Z.ltb_spec cp 0x800) as [H2|H2].
  { rewrite (lor_const 0xC0 6 _ 5), (lor_const 0x80 2 _ 6)
      by (reflexivity || lia || (arith_bits; div_lia)).
    arith_bits. cbn [app].
    rewrite utf8_decode_lead, utf8_lead_2 by div_lia. cbn [fst snd app].
    rewrite utf8_continue by (cbn [lower upper]; div_lia).
    cbn [needed code_point]. f_equal. f_equal. div_lia. }
  destruct (Z.ltb_spec cp 0x10000) as [H3|H3].
  { rewrite (lor_const 0xE0 14 _ 4), !(lor_const 0x80 2 _ 6)
      by (reflexivity || lia || (arith_bits; div_lia)).
    arith_bits. cbn [app].
    rewrite utf8_decode_lead, utf8_lead_3 by div_lia. cbn [fst snd app].
    rewrite utf8_continue.
    2:{ cbn [lower upper].
        destruct (Z.eqb_spec (224 + cp / 4096) 224), (Z.eqb_spec (224 + cp / 4096) 237); div_lia. }
    2:{ div_lia. }
    cbn [needed code_point].
    rewrite utf8_continue by (cbn [lower upper]; div_lia).
    cbn [needed code_point]. f_equal. f_equal. div_lia. }
  rewrite (lor_const 0xF0 30 _ 3), !(lor_const 0x80 2 _ 6)
    by (reflexivity || lia || (arith_bits; div_lia)).
  arith_bits. cbn [app].
  rewrite utf8_decode_lead, utf8_lead_4 by div_lia. cbn [fst snd app].
  rewrite utf8_continue.
  2:{ cbn [lower upper].
      destruct (Z.eqb_spec (240 + cp / 262144) 240), (Z.eqb_spec (240 + cp / 262144) 244); div_lia. }
  2:{ div_lia. }
  cbn [needed code_point].
  rewrite utf8_continue by (cbn [lower upper]; div_lia).
  cbn [needed code_point].
  rewrite utf8_continue by (cbn [lower upper]; div_lia).
  cbn [needed code_point]. f_equal. f_equal. div_lia.
Qed.

Lemma utf8_bytes (cp : Z) : 0 <= cp < 0x110000 -> Forall is_byte (utf8_of_code_point cp).
Proof.
  intros R. unfold utf8_of_code_point, is_byte.
  destruct (Z.ltb_spec cp 0x80); [repeat constructor; lia|].
  destruct (Z.ltb_spec cp 0x800).
  { rewrite (lor_const 0xC0 6 _ 5), (lor_const 0x80 2 _ 6)
      by (reflexivity || lia || (arith_bits; div_lia)).
    arith_bits. repeat constructor; div_lia. }
  destruct (Z.ltb_spec cp 0x10000).
  { rewrite (lor_const 0xE0 14 _ 4), !(lor_const 0x80 2 _ 6)
      by (reflexivity || lia || (arith_bits; div_lia)).
    arith_bits. repeat constructor; div_lia. }
  rewrite (lor_const 0xF0 30 _ 3), !(lor_const 0x80 2 _ 6)
    by (reflexivity || lia || (arith_bits; div_lia)).
  arith_bits. repeat constructor; div_lia.
Qed.

Lemma surrogate_bounds (c : Z) :
  (is_high_surrogate c = true <-> 0xD800 <= c <= 0xDBFF) /\
  (is_low_surrogate c = true <-> 0xDC00 <= c <= 0xDFFF) /\
  (is_surrogate c = true <-> 0xD800 <= c <= 0xDFFF).
Proof.
  unfold is_high_surrogate, is_low_surrogate, is_surrogate.
  rewrite !andb_true_iff, !Z.leb_le. tauto.
Qed.

Lemma plain_unit (c : Z) :
  is_surrogate c = false -> is_high_surrogate c = false /\ is_low_surrogate c = false.
Proof.
  intros Hs. split.
  - destruct (is_high_surrogate c) eqn:E; [|reflexivity].
    apply surrogate_bounds in E.
    assert (B : 0xD800 <= c <= 0xDFFF) by lia. apply surrogate_bounds in B. congruence.
  - destruct (is_low_surrogate c) eqn:E; [|reflexivity].
    apply surrogate_bounds in E.
    assert (B : 0xD800 <= c <= 0xDFFF) by lia. apply surrogate_bounds in B. congruence.
Qed.

Lemma outside_surrogates (c : Z) : c < 0xD800 \/ 0xDFFF < c -> is_surrogate c = false.
Proof. intros H. apply not_between, H. Qed.

(** The code point of a surrogate pair, and its code units. *)
Lemma pair_scalar (c d : Z) :
  is_high_surrogate c = true -> is_low_surrogate d = true ->
  let cp := 0x10000 + Z.shiftl (c - 0xD800) 10 + (d - 0xDC00) in
  is_scalar cp /\ code_units cp = [c; d].
Proof.
  intros Hc Hd cp.
  apply surrogate_bounds in Hc. apply surrogate_bounds in Hd.
  assert (E : cp = 0x10000 + (c - 0xD800) * 1024 + (d - 0xDC00)).
  { unfold cp. arith_bits. reflexivity. }
  split.
  - unfold is_scalar. lia.
  - unfold code_units. replace (cp <? 0x10000) with false by (symmetry; apply Z.ltb_ge; lia).
    rewrite E. arith_bits. f_equal; [|f_equal]; div_lia.
Qed.

(** What a well-formed string is at its head. *)
Lemma well_formed_cons (c : Z) (s : jsstring) :
  well_formed (c :: s) = true ->
  (is_high_surrogate c = true /\
   exists d s', s = d :: s' /\ is_low_surrogate d = true /\ well_formed s' = true) \/
  (is_surrogate c = false /\ 0 <= c < 0x10000 /\ well_formed s = true).
Proof.
  cbn [well_formed]. destruct (is_high_surrogate c) eqn:Hh.
  - destruct s as [|d s']; [discriminate|].
    intros E. apply andb_prop in E as [E1 E2]. left. split; [reflexivity|].
    now exists d, s'.
  - intros E. apply andb_prop in E as [E E4]. apply andb_prop in E as [E E3].
    apply andb_prop in E as [E1 E2].
    right. apply negb_true_iff in E1. apply Z.leb_le in E2, E3.
    split; [|split; [lia | exact E4]].
    destruct (is_surrogate c) eqn:Hs; [|reflexivity].
    apply surrogate_bounds in Hs.
    assert (~ 0xD800 <= c <= 0xDBFF) by (intros B; apply surrogate_bounds in B; congruence).
    assert (~ 0xDC00 <= c <= 0xDFFF) by (intros B; apply surrogate_bounds in B; congruence).
    lia.
Qed.

Lemma Buffer_from_utf8_plain (c : Z) (s : jsstring) :
  is_surrogate c = false ->
  Buffer_from_utf8 (c :: s) = utf8_of_code_point c ++ Buffer_from_utf8 s.
Proof.
  intros Hs. cbn [Buffer_from_utf8].
  destruct (plain_unit c Hs) as [-> ->]. reflexivity.
Qed.

(** Decoding what was encoded gives the string back, and the encoding is
    made of bytes. *)
Lemma utf8_roundtrip (s : jsstring) :
  well_formed s = true ->
  Buffer_toString_utf8 (Buffer_from_utf8 s) = s /\ Forall is_byte (Buffer_from_utf8 s).
Proof.
  unfold Buffer_toString_utf8.
  remember (List.length s) as n eqn:Hn. revert s Hn.
  induction n as [n IH] using lt_wf_ind. intros s -> W.
  destruct s as [|c s]; [split; [reflexivity | constructor]|].
  apply well_formed_cons in W as [(Hc & d & s' & -> & Hd & W) | (Hs & R & W)].
  - destruct (IH (List.length s')) with (s := s') as [D B]; [simpl; lia | reflexivity | exact W |].
    destruct (pair_scalar c d Hc Hd) as [Sc U].
    cbn [Buffer_from_utf8]. rewrite Hc, Hd. split.
    + rewrite utf8_scalar by exact Sc. rewrite U, D. reflexivity.
    + apply Forall_app. split; [apply utf8_bytes, Sc | exact B].
  - destruct (IH (List.length s)) with (s := s) as [D B]; [simpl; lia | reflexivity | exact W |].
    rewrite Buffer_from_utf8_plain by exact Hs.
    assert (Sc : is_scalar c).
    { split; [lia|]. intros B'. apply surrogate_bounds in B'. congruence. }
    split.
    + rewrite utf8_scalar by exact Sc. unfold code_units.
      replace (c <? 0x10000) with true by (symmetry; apply Z.ltb_lt; lia).
      rewrite D. reflexivity.
    + apply Forall_app. split; [apply utf8_bytes, Sc | exact B].
Qed.

(** ** Strings through JSON *)

Lemma parse_string_literal (c : Z) (r : jsstring) :
  c <> 0x22 -> c <> 0x5C -> 0x20 <= c ->
  parse_string (c :: r) = cons_unit c (parse_string r).
Proof.
  intros H1 H2 H3. cbn [parse_string].
  apply Z.eqb_neq in H1, H2. rewrite H1, H2.
  replace (c <? 0x20) with false by (symmetry; apply Z.ltb_ge; lia).
  reflexivity.
Qed.

Lemma unhex4_hex4 (c : Z) (r : jsstring) :
  is_unit c ->
  parse_string (0x5C :: 117 :: hex4 c ++ r) = cons_unit c (parse_string r).
Proof.
  intros Hc. unfold is_unit in Hc. unfold hex4. cbn [app parse_string].
  change (0x5C =? 0x22) with false. change (0x5C =? 0x5C) with true.
  change (117 =? 117) with true. cbv beta iota.
  unfold unhex4.
  rewrite !unhex_hex_digit by (arith_bits; div_lia).
  replace (((Z.shiftr c 12 * 16 + Z.land (Z.shiftr c 8) 15) * 16
            + Z.land (Z.shiftr c 4) 15) * 16 + Z.land c 15) with c
    by (arith_bits; div_lia).
  reflexivity.
Qed.

Lemma parse_quote_unit (c : Z) (r : jsstring) :
  is_unit c -> parse_string (quote_unit c ++ r) = cons_unit c (parse_string r).
Proof.
  intros Hc. unfold quote_unit.
  destruct (Z.eqb_spec c 0x22) as [->|N1]; [reflexivity|].
  destruct (Z.eqb_spec c 0x5C) as [->|N2]; [reflexivity|].
  destruct (Z.eqb_spec c 0x08) as [->|N3]; [reflexivity|].
  destruct (Z.eqb_spec c 0x0C) as [->|N4]; [reflexivity|].
  destruct (Z.eqb_spec c 0x0A) as [->|N5]; [reflexivity|].
  destruct (Z.eqb_spec c 0x0D) as [->|N6]; [reflexivity|].
  destruct (Z.eqb_spec c 0x09) as [->|N7]; [reflexivity|].
  destruct ((c <? 0x20) || is_surrogate c) eqn:E.
  - change (0x5C :: js "u" ++ hex4 c) with (0x5C :: 117 :: hex4 c).
    cbn [app]. apply unhex4_hex4, Hc.
  - apply orb_false_elim in E as [E _]. apply Z.ltb_ge in E.
    cbn [app]. apply parse_string_literal; assumption.
Qed.

(** Reading back a quoted string: the string, and what follows the
    closing quote. *)
Lemma parse_quoted (s rest : jsstring) :
  Forall is_unit s -> parse_string (quote_units s ++ 0x22 :: rest) = Some (s, rest).
Proof.
  remember (List.length s) as n eqn:Hn. revert s Hn.
  induction n as [n IH] using lt_wf_ind. intros s -> U.
  destruct s as [|c s]; [reflexivity|].
  inversion U as [|? ? Hc Us]; subst.
  assert (Plain : parse_string ((quote_unit c ++ quote_units s) ++ 0x22 :: rest)
                  = Some (c :: s, rest)).
  { rewrite <- app_assoc, parse_quote_unit by exact Hc.
    rewrite (IH (List.length s)) with (s := s); [reflexivity | simpl; lia | reflexivity | exact Us]. }
  cbn [quote_units]. destruct (is_high_surrogate c) eqn:Hh; [|exact Plain].
  destruct s as [|d s'].
  { rewrite parse_quote_unit by exact Hc. reflexivity. }
  destruct (is_low_surrogate d) eqn:Hl; [|exact Plain].
  apply surrogate_bounds in Hh. apply surrogate_bounds in Hl.
  cbn [app]. rewrite !parse_string_literal by lia.
  inversion Us as [|? ? Hd Us']; subst.
  rewrite (IH (List.length s')) with (s := s'); [reflexivity | simpl; lia | reflexivity | exact Us'].
Qed.

(** ** Well-formed JSON texts *)

Lemma ascii_well_formed (s : jsstring) : ascii s = true -> well_formed s = true.
Proof.
  induction s as [|c s IH]; [reflexivity|].
  cbn [ascii forallb well_formed]. intros E. apply andb_prop in E as [E1 E2].
  apply andb_prop in E1 as [L H]. apply Z.leb_le in L. apply Z.ltb_lt in H.
  destruct (plain_unit c (outside_surrogates c ltac:(lia))) as [-> ->].
  rewrite (IH E2).
  replace (0 <=? c) with true by (symmetry; apply Z.leb_le; lia).
  replace (c <=? 0xFFFF) with true by (symmetry; apply Z.leb_le; lia).
  reflexivity.
Qed.

Lemma ascii_units (s : jsstring) : ascii s = true -> Forall is_unit s.
Proof.
  intros E. apply Forall_forall. intros c Hc.
  unfold ascii in E. rewrite forallb_forall in E. specialize (E c Hc).
  apply andb_prop in E as [L H]. apply Z.leb_le in L. apply Z.ltb_lt in H.
  unfold is_unit. lia.
Qed.

Lemma well_formed_app (a b : jsstring) :
  well_formed a = true -> well_formed b = true -> well_formed (a ++ b) = true.
Proof.
  remember (List.length a) as n eqn:Hn. revert a Hn.
  induction n as [n IH] using lt_wf_ind. intros a -> Wa Wb.
  destruct a as [|c a]; [exact Wb|].
  apply well_formed_cons in Wa as [(Hc & d & a' & -> & Hd & W) | (Hs & R & W)].
  - cbn [app well_formed]. rewrite Hc, Hd.
    apply (IH (List.length a')); [simpl; lia | reflexivity | exact W | exact Wb].
  - cbn [app well_formed].
    destruct (plain_unit c Hs) as [-> ->].
    replace (0 <=? c) with true by (symmetry; apply Z.leb_le; lia).
    replace (c <=? 0xFFFF) with true by (symmetry; apply Z.leb_le; lia).
    apply (IH (List.length a)); [simpl; lia | reflexivity | exact W | exact Wb].
Qed.

Lemma hex_digit_ascii (n : Z) : 0 <= n < 16 -> 0 <= hex_digit n < 128.
Proof. intros H. unfold hex_digit. destruct (n <? 10); lia. Qed.

Lemma quote_unit_ascii (c : Z) :
  is_unit c -> (c <? 0x20) || is_surrogate c = true \/ c < 128 -> ascii (quote_unit c) = true.
Proof.
  intros Hc. unfold is_unit in Hc. unfold quote_unit.
  destruct (Z.eqb_spec c 0x22); [reflexivity|].
  destruct (Z.eqb_spec c 0x5C); [reflexivity|].
  destruct (Z.eqb_spec c 0x08); [reflexivity|].
  destruct (Z.eqb_spec c 0x0C); [reflexivity|].
  destruct (Z.eqb_spec c 0x0A); [reflexivity|].
  destruct (Z.eqb_spec c 0x0D); [reflexivity|].
  destruct (Z.eqb_spec c 0x09); [reflexivity|].
  destruct ((c <? 0x20) || is_surrogate c) eqn:E.
  - intros _. unfold hex4. cbn [ascii forallb app js map list_ascii_of_string].
    repeat match goal with
           | |- context [hex_digit ?n] =>
               let H := fresh in
               assert (H : 0 <= hex_digit n < 128) by (apply hex_digit_ascii; arith_bits; div_lia);
               generalize dependent (hex_digit n); intros
           end.
    repeat (apply andb_true_intro; split); try reflexivity;
      try (apply Z.leb_le; lia); try (apply Z.ltb_lt; lia).
  - intros [F|L]; [discriminate|].
    cbn [ascii forallb]. rewrite andb_true_r.
    apply andb_true_intro. split; [apply Z.leb_le | apply Z.ltb_lt]; lia.
Qed.

Lemma well_formed_quote_units (s : jsstring) :
  Forall is_unit s -> well_formed (quote_units s) = true.
Proof.
  remember (List.length s) as n eqn:Hn. revert s Hn.
  induction n as [n IH] using lt_wf_ind. intros s -> U.
  destruct s as [|c s]; [reflexivity|].
  inversion U as [|? ? Hc Us]; subst.
  assert (Tail : well_formed (quote_units s) = true).
  { apply (IH (List.length s)); [simpl; lia | reflexivity | exact Us]. }
  assert (Plain : well_formed (quote_unit c ++ quote_units s) = true).
  { apply well_formed_app; [|exact Tail].
    destruct ((c <? 0x20) || is_surrogate c) eqn:E.
    - apply ascii_well_formed, quote_unit_ascii; [exact Hc | now left].
    - unfold quote_unit. rewrite E. apply orb_false_elim in E as [E1 E2].
      destruct (Z.eqb_spec c 0x22); [reflexivity|].
      destruct (Z.eqb_spec c 0x5C); [reflexivity|].
      destruct (Z.eqb_spec c 0x08); [reflexivity|].
      destruct (Z.eqb_spec c 0x0C); [reflexivity|].
      destruct (Z.eqb_spec c 0x0A); [reflexivity|].
      destruct (Z.eqb_spec c 0x0D); [reflexivity|].
      destruct (Z.eqb_spec c 0x09); [reflexivity|].
      unfold is_unit in Hc. cbn [well_formed].
      destruct (plain_unit c E2) as [-> ->].
      replace (0 <=? c) with true by (symmetry; apply Z.leb_le; lia).
      replace (c <=? 0xFFFF) with true by (symmetry; apply Z.leb_le; lia).
      reflexivity. }
  cbn [quote_units]. destruct (is_high_surrogate c) eqn:Hh; [|exact Plain].
  destruct s as [|d s'].
  { apply ascii_well_formed, quote_unit_ascii; [exact Hc|]. left.
    apply orb_true_intro. right.
    apply surrogate_bounds in Hh. apply surrogate_bounds. lia. }
  destruct (is_low_surrogate d) eqn:Hl; [|exact Plain].
  cbn [well_formed]. rewrite Hh, Hl.
  inversion Us as [|? ? Hd Us']; subst.
  apply (IH (List.length s')); [simpl; lia | reflexivity | exact Us'].
Qed.

Lemma well_formed_quoted (s : jsstring) :
  Forall is_unit s -> well_formed (QuoteJSONString s) = true.
Proof.
  intros U. unfold QuoteJSONString.
  apply well_formed_app; [reflexivity|].
  apply well_formed_app; [apply well_formed_quote_units, U | reflexivity].
Qed.

(** ** Objects through JSON *)

Lemma parses_string (s : jsstring) : Forall is_unit s -> parses 1 (QuoteJSONString s) (JString s).
Proof.
  intros U [|f] rest Hf; [lia|].
  unfold QuoteJSONString. rewrite <- !app_assoc.
  change ([0x22] ++ quote_units s ++ [0x22] ++ rest) with (0x22 :: quote_units s ++ 0x22 :: rest).
  cbn [parse_value skip_ws]. change (is_ws 0x22) with false. cbv beta iota.
  change (0x22 =? 123) with false. change (0x22 =? 91) with false.
  change (0x22 =? 0x22) with true. cbv beta iota.
  rewrite parse_quoted by exact U. reflexivity.
Qed.

Lemma parses_null : parses 1 (js "null") JNull.
Proof. intros [|f] rest Hf; [lia | reflexivity]. Qed.

Lemma parse_members_step (f : nat) (k t tail : jsstring) (acc : list (jsstring * JsValue))
    (v : JsValue) :
  Forall is_unit k ->
  parse_value f (t ++ tail) = Parsed_ok v tail ->
  parse_members (S f) (printed (k, t) ++ tail) acc
  = match skip_ws tail with
    | [] => Parsed_error
    | c :: r =>
        if c =? 44 then parse_members f r (define_property k v acc)
        else if c =? 125 then Parsed_ok (JObject (define_property k v acc)) r
        else Parsed_error
    end.
Proof.
  intros U P. unfold printed, QuoteJSONString. cbn [fst snd]. rewrite <- !app_assoc.
  change ([0x22] ++ quote_units k ++ [0x22] ++ js ":" ++ t ++ tail)
    with (0x22 :: quote_units k ++ 0x22 :: 58 :: t ++ tail).
  cbn [parse_members skip_ws]. change (is_ws 0x22) with false. cbv beta iota.
  change (0x22 =? 0x22) with true. cbv beta iota.
  rewrite parse_quoted by exact U.
  cbn [skip_ws]. change (is_ws 58) with false. cbv beta iota.
  change (58 =? 58) with true. cbv beta iota.
  rewrite P. reflexivity.
Qed.

Lemma join_cons2 (sep x y : jsstring) (l : list jsstring) :
  join sep (x :: y :: l) = x ++ sep ++ join sep (y :: l).
Proof. reflexivity. Qed.

Lemma parse_members_list (n : nat) (l : list member) :
  l <> [] -> Forall (member_ok n) l ->
  forall fuel rest acc,
    (n + List.length l <= fuel)%nat ->
    parse_members fuel (join (js ",") (map printed (map member_text l)) ++ js "}" ++ rest) acc
    = Parsed_ok (JObject (fold_left define_member l acc)) rest.
Proof.
  induction l as [|[k [t v]] l IH]; [congruence|].
  intros _ Hl fuel rest acc Hf.
  inversion Hl as [|? ? [U P] Hl']; subst. cbn [fst snd] in U, P.
  destruct fuel as [|f]; [simpl in Hf; lia|].
  destruct l as [|m l].
  - cbn [map join]. change (member_text (k, (t, v))) with (k, t).
    rewrite parse_members_step with (v := v);
      [reflexivity | exact U | apply P; simpl in Hf; lia].
  - cbn [map]. rewrite join_cons2. change (member_text (k, (t, v))) with (k, t).
    rewrite <- !app_assoc.
    rewrite parse_members_step with (v := v); [| exact U | apply P; simpl in Hf; lia].
    change (js "," ++ ?x) with (44 :: x).
    cbn [skip_ws]. change (is_ws 44) with false. cbv beta iota.
    change (44 =? 44) with true. cbv beta iota.
    cbn [fold_left].
    apply (IH ltac:(discriminate) Hl' f rest). simpl in Hf |- *. lia.
Qed.

Lemma printed_head (kv : jsstring * jsstring) (r : jsstring) :
  exists r', printed kv ++ r = 0x22 :: r'.
Proof. unfold printed, QuoteJSONString. rewrite <- !app_assoc. eexists. reflexivity. Qed.

(** An object is read back as the properties its members define, one
    after the other. *)
Lemma parses_object (n : nat) (l : list member) :
  Forall (member_ok n) l ->
  parses (S (n + List.length l)) (SerializeJSONObject (map member_text l))
    (JObject (fold_left define_member l [])).
Proof.
  intros Hl fuel rest Hf. destruct fuel as [|f]; [lia|].
  unfold SerializeJSONObject. rewrite <- !app_assoc.
  fold (printed).
  change (map (fun kv : jsstring * jsstring => QuoteJSONString (fst kv) ++ js ":" ++ snd kv))
    with (map printed).
  destruct l as [|m l].
  - reflexivity.
  - change (js "{" ++ ?x) with (123 :: x).
    assert (Hd : exists r', join (js ",") (map printed (map member_text (m :: l))) ++ js "}" ++ rest
                            = 0x22 :: r').
    { cbn [map join]. destruct (map printed (map member_text l)).
      - apply printed_head.
      - rewrite <- app_assoc. apply printed_head. }
    destruct Hd as [r' Hd].
    cbn [parse_value skip_ws]. change (is_ws 123) with false. cbv beta iota.
    change (123 =? 123) with true. cbv beta iota.
    rewrite Hd at 1. cbn [skip_ws]. change (is_ws 0x22) with false. cbv beta iota.
    change (0x22 =? 125) with false. cbv beta iota.
    apply (parse_members_list n (m :: l)); [discriminate | exact Hl | lia].
Qed.

(** ** Enumeration order *)

Lemma has_property_keys (k : jsstring) (props : list (jsstring * JsValue)) :
  has_property k props = existsb (str_eqb k) (map fst props).
Proof.
  induction props as [|[k' v'] props IH]; [reflexivity|].
  cbn [has_property map existsb fst]. rewrite IH. reflexivity.
Qed.

Lemma define_follows (k : jsstring) (v : JsValue) (props : list (jsstring * JsValue)) :
  follows k (map fst props) = true -> define_property k v props = props ++ [(k, v)].
Proof.
  unfold follows, define_property. intros F. apply andb_prop in F as [N O].
  rewrite has_property_keys. apply negb_true_iff in N. rewrite N.
  clear N. induction props as [|[k' v'] props IH]; [reflexivity|].
  cbn [insert_property app]. cbn [map fst] in O.
  destruct (array_index k) as [i|].
  - cbn [forallb] in O. apply andb_prop in O as [O1 O2].
    destruct (array_index k') as [i'|]; [|discriminate].
    apply Z.leb_le in O1.
    replace (i <? i') with false by (symmetry; apply Z.ltb_ge; lia).
    rewrite (IH O2). reflexivity.
  - rewrite (IH O). reflexivity.
Qed.

Lemma fold_define (l : list member) (acc : list (jsstring * JsValue)) :
  enumeration_order_from (map fst acc) (map fst l) = true ->
  fold_left define_member l acc = acc ++ map member_value l.
Proof.
  revert acc. induction l as [|[k [t v]] l IH]; intros acc E.
  - cbn [fold_left map]. rewrite app_nil_r. reflexivity.
  - cbn [map fst enumeration_order_from] in E. apply andb_prop in E as [F E].
    cbn [fold_left]. unfold define_member at 2. cbn [fst snd].
    rewrite (define_follows k v acc F).
    rewrite IH.
    + rewrite <- app_assoc. reflexivity.
    + rewrite map_app. exact E.
Qed.

(** ** Metadata through JSON *)

Lemma valid_string_units (s : jsstring) : valid_string s = true -> Forall is_unit s.
Proof.
  intros E. apply Forall_forall. intros c Hc.
  unfold valid_string in E. rewrite forallb_forall in E. specialize (E c Hc).
  apply andb_prop in E as [L H]. apply Z.leb_le in L. apply Z.ltb_lt in H.
  unfold is_unit. lia.
Qed.

Lemma stringify_members (m : ProductMetadata) :
  JSON_stringify m = SerializeJSONObject (map member_text (metadata_members m)).
Proof.
  unfold JSON_stringify, metadata_members.
  destruct (ipfsLink m), (additionalInfo m); reflexivity.
Qed.

Lemma decoded_members (m : ProductMetadata) :
  ProductMetadata_decoded m = JObject (map member_value (metadata_members m)).
Proof.
  unfold ProductMetadata_decoded, metadata_members.
  destruct (ipfsLink m), (additionalInfo m); reflexivity.
Qed.

Lemma record_text (r : list (jsstring * jsstring)) :
  stringify_Record r = SerializeJSONObject (map member_text (record_members r)).
Proof.
  unfold stringify_Record, record_members. rewrite map_map. reflexivity.
Qed.

Lemma record_values (r : list (jsstring * jsstring)) :
  map member_value (record_members r) = map (fun kv => (fst kv, JString (snd kv))) r.
Proof. unfold record_members. rewrite map_map. reflexivity. Qed.

Lemma record_keys (r : list (jsstring * jsstring)) :
  map fst (record_members r) = map fst r.
Proof. unfold record_members. rewrite map_map. reflexivity. Qed.

Lemma parses_more (n n' : nat) (text : jsstring) (v : JsValue) :
  (n <= n')%nat -> parses n text v -> parses n' text v.
Proof. intros Hn P fuel rest Hf. apply P. lia. Qed.

Lemma string_member_ok (k s : jsstring) :
  Forall is_unit k -> Forall is_unit s -> member_ok 1 (string_member k s).
Proof. intros Hk Hs. split; [exact Hk | apply parses_string, Hs]. Qed.

Lemma member_ok_more (n n' : nat) (m : member) :
  (n <= n')%nat -> member_ok n m -> member_ok n' m.
Proof. intros Hn [U P]. split; [exact U | exact (parses_more n n' _ _ Hn P)]. Qed.

(** A record of strings is read back as it was. *)
Lemma parses_record (r : list (jsstring * jsstring)) :
  forallb (fun kv => valid_string (fst kv) && valid_string (snd kv)) r = true ->
  enumeration_order (map fst r) = true ->
  parses (2 + List.length r) (stringify_Record r)
    (JObject (map (fun kv => (fst kv, JString (snd kv))) r)).
Proof.
  intros V O. rewrite record_text, <- record_values.
  rewrite <- (app_nil_l (map member_value (record_members r))).
  rewrite <- fold_define by (rewrite record_keys; exact O).
  replace (2 + List.length r)%nat with (S (1 + List.length (record_members r)))
    by (unfold record_members; rewrite length_map; reflexivity).
  apply parses_object.
  unfold record_members. apply Forall_map, Forall_forall. intros [k v] Hin.
  rewrite forallb_forall in V. specialize (V _ Hin). apply andb_prop in V as [Vk Vv].
  apply string_member_ok; apply valid_string_units; assumption.
Qed.

Lemma ascii_app (a b : jsstring) : ascii (a ++ b) = ascii a && ascii b.
Proof. apply forallb_app. Qed.

Lemma ascii_digits_fuel (fuel : nat) (n : Z) (acc : jsstring) :
  ascii acc = true -> ascii (digits_fuel fuel n acc) = true.
Proof.
  revert n acc. induction fuel as [|f IH]; intros n acc A; [exact A|].
  cbn [digits_fuel].
  assert (D : ascii ((48 + n mod 10) :: acc) = true).
  { cbn [ascii forallb]. fold (ascii acc). rewrite A.
    pose proof (Z.mod_pos_bound n 10 ltac:(lia)).
    rewrite andb_true_r. apply andb_true_intro.
    split; [apply Z.leb_le | apply Z.ltb_lt]; lia. }
  destruct (n / 10 =? 0); [exact D | apply IH, D].
Qed.

Lemma ascii_pad0 (w : nat) (n : Z) : ascii (pad0 w n) = true.
Proof.
  unfold pad0, decimal. rewrite ascii_app.
  rewrite ascii_digits_fuel by reflexivity. rewrite andb_true_r.
  induction (w - List.length (digits_fuel (S (Z.to_nat (Z.log2 n))) n []))%nat as [|k IH];
    [reflexivity | exact IH].
Qed.

Lemma ascii_iso (t : Z) : ascii (Date_toISOString t) = true.
Proof.
  unfold Date_toISOString. destruct (civil_from_days (t / msPerDay)) as [[y mo] d].
  rewrite !ascii_app, !ascii_pad0.
  destruct ((0 <=? y) && (y <=? 9999)); [rewrite ascii_pad0; reflexivity|].
  rewrite ascii_app, ascii_pad0. destruct (y <? 0); reflexivity.
Qed.

Lemma well_formed_join (sep : jsstring) (l : list jsstring) :
  well_formed sep = true -> Forall (fun x => well_formed x = true) l ->
  well_formed (join sep l) = true.
Proof.
  intros Hs. induction 1 as [|x l Hx Hl IH]; [reflexivity|].
  destruct l as [|y l]; [exact Hx|].
  rewrite join_cons2. apply well_formed_app; [exact Hx|].
  apply well_formed_app; [exact Hs | exact IH].
Qed.

Lemma well_formed_object (members : list (jsstring * jsstring)) :
  Forall text_ok members -> well_formed (SerializeJSONObject members) = true.
Proof.
  intros H. unfold SerializeJSONObject.
  apply well_formed_app; [reflexivity|].
  apply well_formed_app; [|reflexivity].
  apply well_formed_join; [reflexivity|].
  apply Forall_map. eapply Forall_impl; [|exact H].
  intros [k t] [Hk Ht]. cbn [fst snd] in *.
  apply well_formed_app; [apply well_formed_quoted, Hk|].
  apply well_formed_app; [reflexivity | exact Ht].
Qed.

Lemma string_text_ok (k s : jsstring) :
  Forall is_unit k -> Forall is_unit s -> text_ok (k, QuoteJSONString s).
Proof. intros Hk Hs. split; [exact Hk | apply well_formed_quoted, Hs]. Qed.

Lemma well_formed_record (r : list (jsstring * jsstring)) :
  forallb (fun kv => valid_string (fst kv) && valid_string (snd kv)) r = true ->
  well_formed (stringify_Record r) = true.
Proof.
  intros V. unfold stringify_Record. apply well_formed_object.
  apply Forall_map, Forall_forall. intros [k v] Hin.
  rewrite forallb_forall in V. specialize (V _ Hin). apply andb_prop in V as [Vk Vv].
  apply string_text_ok; apply valid_string_units; assumption.
Qed.

Lemma well_formed_Date (d : Date) : well_formed (stringify_Date d) = true.
Proof.
  unfold stringify_Date, Date_toJSON. destruct d as [t|]; [|reflexivity].
  apply well_formed_quoted, ascii_units, ascii_iso.
Qed.

Lemma well_formed_metadata (m : ProductMetadata) :
  valid_metadata m = true -> well_formed (JSON_stringify m) = true.
Proof.
  unfold valid_metadata. intros V.
  apply andb_prop in V as [V Vr]. apply andb_prop in V as [V Vl].
  apply andb_prop in V as [Vn Vd].
  apply valid_string_units in Vn, Vd.
  unfold JSON_stringify. apply well_formed_object.
  repeat apply Forall_cons.
  - apply string_text_ok; [apply ascii_units; reflexivity | exact Vn].
  - apply string_text_ok; [apply ascii_units; reflexivity | exact Vd].
  - split; [apply ascii_units; reflexivity | apply well_formed_Date].
  - apply Forall_app. split.
    + destruct (ipfsLink m) as [l|]; [|constructor].
      constructor; [|constructor].
      apply string_text_ok; [apply ascii_units; reflexivity | apply valid_string_units, Vl].
    + destruct (additionalInfo m) as [r|]; [|constructor].
      apply andb_prop in Vr as [Vr _].
      constructor; [|constructor].
      split; [apply ascii_units; reflexivity | apply well_formed_record, Vr].
Qed.

(** ** Lengths *)

Lemma join_length (sep : jsstring) (l : list jsstring) :
  Forall (fun x => (1 <= List.length x)%nat) l ->
  (List.length l <= List.length (join sep l))%nat /\
  forall x, In x l -> (List.length x <= List.length (join sep l))%nat.
Proof.
  induction 1 as [|x l Hx Hl [IH1 IH2]]; [split; [simpl; lia | intros ? []]|].
  cbv beta in Hx. destruct l as [|y l].
  - cbn [join]. split; [simpl; lia|]. intros z [<-|[]]. lia.
  - rewrite join_cons2, !length_app. split; [simpl in *; lia|].
    intros z [<-|Hz]; [lia|]. specialize (IH2 z Hz).
    eapply Nat.le_trans; [exact IH2|]. rewrite Nat.add_assoc. apply Nat.le_add_l.
Qed.

Lemma SerializeJSONObject_printed (members : list (jsstring * jsstring)) :
  SerializeJSONObject members = js "{" ++ join (js ",") (map printed members) ++ js "}".
Proof. reflexivity. Qed.

Lemma printed_length (kv : jsstring * jsstring) :
  (3 + List.length (snd kv) <= List.length (printed kv))%nat.
Proof.
  unfold printed, QuoteJSONString. rewrite !length_app. simpl. lia.
Qed.

Lemma object_length (members : list (jsstring * jsstring)) :
  (2 + List.length members <= List.length (SerializeJSONObject members))%nat /\
  forall kv, In kv members ->
    (5 + List.length (snd kv) <= List.length (SerializeJSONObject members))%nat.
Proof.
  rewrite SerializeJSONObject_printed.
  destruct (join_length (js ",") (map printed members)) as [L1 L2].
  { apply Forall_map, Forall_forall. intros kv _. pose proof (printed_length kv). lia. }
  rewrite length_map in L1. rewrite !length_app.
  change (List.length (js "{")) with 1%nat. change (List.length (js "}")) with 1%nat.
  split; [lia|].
  intros kv Hin. specialize (L2 (printed kv) (in_map printed _ _ Hin)).
  pose proof (printed_length kv). lia.
Qed.

Lemma JSON_parse_parses (n : nat) (text : jsstring) (v : JsValue) :
  parses n text v -> (n <= 2 * List.length text + 1)%nat -> JSON_parse text = Return v.
Proof.
  intros P Hn. unfold JSON_parse.
  specialize (P (2 * List.length text + 1)%nat [] Hn). rewrite app_nil_r in P.
  rewrite P. reflexivity.
Qed.

Lemma metadata_keys_in_order (m : ProductMetadata) :
  enumeration_order_from [] (map fst (metadata_members m)) = true.
Proof.
  unfold metadata_members. destruct (ipfsLink m), (additionalInfo m); reflexivity.
Qed.

Lemma metadata_members_ok (m : ProductMetadata) :
  valid_metadata m = true ->
  Forall (member_ok (2 + match additionalInfo m with
                         | Some r => List.length r
                         | None => 0
                         end)) (metadata_members m).
Proof.
  unfold valid_metadata. intros V.
  apply andb_prop in V as [V Vr]. apply andb_prop in V as [V Vl].
  apply andb_prop in V as [Vn Vd].
  apply valid_string_units in Vn, Vd.
  unfold metadata_members. repeat apply Forall_cons.
  - eapply member_ok_more; [|apply string_member_ok; [apply ascii_units; reflexivity | exact Vn]].
    lia.
  - eapply member_ok_more; [|apply string_member_ok; [apply ascii_units; reflexivity | exact Vd]].
    lia.
  - split; [apply ascii_units; reflexivity|]. cbn [fst snd].
    apply (parses_more 1); [lia|].
    unfold stringify_Date, Date_decoded. destruct (Date_toJSON (dateManufactured m)) as [iso|] eqn:E.
    + apply parses_string. destruct (dateManufactured m) as [t|]; [|discriminate].
      injection E as <-. apply ascii_units, ascii_iso.
    + apply parses_null.
  - apply Forall_app. split.
    + destruct (ipfsLink m) as [l|]; [|constructor].
      constructor; [|constructor].
      eapply member_ok_more;
        [|apply (string_member_ok (js "ipfsLink") l);
          [apply ascii_units; reflexivity | apply valid_string_units, Vl]].
      lia.
    + destruct (additionalInfo m) as [r|]; [|constructor].
      apply andb_prop in Vr as [Vr Vo].
      constructor; [|constructor].
      split; [apply ascii_units; reflexivity|]. cbn [fst snd].
      apply parses_record; assumption.
Qed.

Lemma metadata_text_length (m : ProductMetadata) :
  (match additionalInfo m with
   | Some r => 7 + List.length r
   | None => 5
   end <= List.length (JSON_stringify m))%nat.
Proof.
  rewrite stringify_members.
  destruct (object_length (map member_text (metadata_members m))) as [L1 L2].
  rewrite length_map in L1.
  destruct (additionalInfo m) as [r|] eqn:A.
  - specialize (L2 (js "additionalInfo", stringify_Record r)).
    cbn [snd] in L2.
    assert (Hin : In (js "additionalInfo", stringify_Record r)
                     (map member_text (metadata_members m))).
    { unfold metadata_members. rewrite A. rewrite !map_app. apply in_or_app. right.
      apply in_or_app. right. left. reflexivity. }
    specialize (L2 Hin).
    destruct (object_length (map (fun kv => (fst kv, QuoteJSONString (snd kv))) r)) as [R1 _].
    rewrite length_map in R1. fold (stringify_Record r) in R1. lia.
  - assert (K : (3 <= List.length (metadata_members m))%nat).
    { unfold metadata_members. rewrite length_app. simpl. lia. }
    lia.
Qed.

(** What comes back from the ledger, for every valid metadata: the
    strings as they were, an absent optional field absent, the entries of
    [additionalInfo] as they were, and the date as its ISO string (or
    [null] for an invalid date). *)
Theorem metadata_roundtrip (m : ProductMetadata) :
  valid_metadata m = true ->
  deserializeMetadata (Some (MoveString (js "0x" ++ serializeMetadata m)))
  = Return (ProductMetadata_decoded m).
Proof.
  intros V.
  destruct (utf8_roundtrip _ (well_formed_metadata m V)) as [D B].
  unfold deserializeMetadata, serializeMetadata. cbn [toString MoveValue_toString].
  change (substring_from 2 (js "0x" ++ ?h)) with h.
  rewrite hex_roundtrip by exact B. rewrite D.
  eapply JSON_parse_parses.
  - rewrite stringify_members at 1. rewrite decoded_members.
    rewrite <- (app_nil_l (map member_value (metadata_members m))).
    rewrite <- fold_define by apply metadata_keys_in_order.
    apply parses_object, metadata_members_ok, V.
  - pose proof (metadata_text_length m) as L.
    assert (K : (List.length (metadata_members m) <= 5)%nat).
    { unfold metadata_members. destruct (ipfsLink m), (additionalInfo m); simpl; lia. }
    destruct (additionalInfo m); lia.
Qed.

Example roundtrip_full :
  let m := {| name := js "Shoe"; description := [0x22; 0xD83D; 0xDE00; 0x0A; 0xD800];
              dateManufactured := None;
              ipfsLink := Some (js "ipfs://x");
              additionalInfo := Some [(js "2", js "b"); (js "10", js "a"); (js "k", [0xE9])] |} in
  deserializeMetadata (Some (MoveString (js "0x" ++ serializeMetadata m)))
  = Return (JObject [(js "name", JString (js "Shoe"));
                     (js "description", JString [0x22; 0xD83D; 0xDE00; 0x0A; 0xD800]);
                     (js "dateManufactured", JNull);
                     (js "ipfsLink", JString (js "ipfs://x"));
                     (js "additionalInfo",
                      JObject [(js "2", JString (js "b")); (js "10", JString (js "a"));
                               (js "k", JString [0xE9])])]).
Proof. intros m. apply (metadata_roundtrip m). reflexivity. Qed.

Example roundtrip_full_computed :
  let m := {| name := js "Shoe"; description := [0x22; 0xD83D; 0xDE00; 0x0A; 0xD800];
              dateManufactured := None;
              ipfsLink := Some (js "ipfs://x");
              additionalInfo := Some [(js "2", js "b"); (js "10", js "a"); (js "k", [0xE9])] |} in
  deserializeMetadata (Some (MoveString (js "0x" ++ serializeMetadata m)))
  = Return (ProductMetadata_decoded m).
Proof. vm_compute. reflexivity. Qed.

(** ** Minting and transferring, step by step *)

Section Sending.
Context `{AptosSDK}.

Lemma mintProduct_sends (this : SupplyChain) (account : AptosAccount)
    (productId : jsstring) (metadata : ProductMetadata) :
  companyAccount this = Some account ->
  mintProduct this productId metadata
  = send_transaction this account (mint_payload productId metadata).
Proof. intros Ha. unfold mintProduct. rewrite Ha. reflexivity. Qed.

Lemma transferProduct_sends (this : SupplyChain) (account : AptosAccount)
    (productId newOwner : jsstring) :
  companyAccount this = Some account ->
  transferProduct this productId newOwner
  = send_transaction this account (transfer_payload productId newOwner).
Proof. intros Ha. unfold transferProduct. rewrite Ha. reflexivity. Qed.

Lemma mint_payload_eq (productId : jsstring) (metadata : ProductMetadata) :
  mint_payload productId metadata
  = {| function_ := js "0x1::SupplyChain::product_manager::mint_product";
       type_arguments := [];
       arguments := [productId; js "0x" ++ serializeMetadata metadata] |}.
Proof. reflexivity. Qed.

Lemma transfer_payload_eq (productId newOwner : jsstring) :
  transfer_payload productId newOwner
  = {| function_ := js "0x1::SupplyChain::product_manager::transfer_product";
       type_arguments := [];
       arguments := [newOwner; productId] |}.
Proof. reflexivity. Qed.

(** Every run of the four steps, by the first step that fails. *)
Lemma send_transaction_run (this : SupplyChain) (account : AptosAccount)
    (payload : EntryFunctionPayload) (st : State) :
  let url := client_nodeUrl (client this) in
  let G := Call_generateTransaction (address account) payload in
  send_transaction this account payload st =
  match generateTransaction url (address account) payload (world st) with
  | (Throw e, w1) => (Throw e, {| world := w1; trace := trace st ++ [G] |})
  | (Return raw, w1) =>
      match signTransaction url account raw w1 with
      | (Throw e, w2) =>
          (Throw e, {| world := w2; trace := trace st ++ [G; Call_signTransaction account raw] |})
      | (Return signed, w2) =>
          match submitTransaction url signed w2 with
          | (Throw e, w3) =>
              (Throw e, {| world := w3;
                           trace := trace st ++ [G; Call_signTransaction account raw;
                                                 Call_submitTransaction signed] |})
          | (Return hash, w3) =>
              match waitForTransaction url hash w3 with
              | (Throw e, w4) =>
                  (Throw e, {| world := w4;
                               trace := trace st ++ [G; Call_signTransaction account raw;
                                                     Call_submitTransaction signed;
                                                     Call_waitForTransaction hash] |})
              | (Return _, w4) =>
                  (Return hash, {| world := w4;
                                   trace := trace st ++ [G; Call_signTransaction account raw;
                                                         Call_submitTransaction signed;
                                                         Call_waitForTransaction hash] |})
              end
          end
      end
  end.
Proof.
  intros url G. unfold send_transaction. fold url. fold G.
  unfold bind, client_call, ret. cbn [world trace].
  destruct (generateTransaction _ _ _ _) as [[raw|e] w1]; cbn [world trace]; [|reflexivity].
  destruct (signTransaction _ _ _ _) as [[signed|e] w2]; cbn [world trace];
    [|rewrite <- app_assoc; reflexivity].
  destruct (submitTransaction _ _ _) as [[hash|e] w3]; cbn [world trace];
    [|rewrite <- !app_assoc; reflexivity].
  destruct (waitForTransaction _ _ _) as [[[]|e] w4]; cbn [world trace];
    rewrite <- !app_assoc; reflexivity.
Qed.


Lemma send_one_transaction (this : SupplyChain) (account : AptosAccount)
    (payload : EntryFunctionPayload) (st : State) :
  one_transaction st (send_transaction this account payload st).
Proof.
  unfold one_transaction. rewrite send_transaction_run. cbv zeta.
  destruct (generateTransaction _ _ _ _) as [[raw|e] w1];
    [|eexists; cbn [fst snd trace]; repeat split; simpl; lia].
  destruct (signTransaction _ _ _ _) as [[signed|e] w2];
    [|eexists; cbn [fst snd trace]; repeat split; simpl; lia].
  destruct (submitTransaction _ _ _) as [[hash|e] w3];
    [|eexists; cbn [fst snd trace]; repeat split; simpl; lia].
  destruct (waitForTransaction _ _ _) as [[[]|e] w4];
    [|eexists; cbn [fst snd trace]; repeat split; simpl; lia].
  eexists. cbn [fst snd trace]. split; [reflexivity|].
  split; [reflexivity|]. split; [simpl; lia|].
  now eexists _, _, _, _, _.
Qed.




(** X7.  Whatever the client does, one call of [mintProduct] or of
    [transferProduct] submits at most one transaction; it makes no view
    and writes nothing to the console; and a hash is returned only after
    the four steps, the last two being the submission and the wait for
    that very hash. *)
Theorem at_most_one_submission (this : SupplyChain) (productId newOwner : jsstring)
    (metadata : ProductMetadata) (st : State) :
  one_transaction st (mintProduct this productId metadata st) /\
  one_transaction st (transferProduct this productId newOwner st).
Proof.
  destruct (companyAccount this) as [account|] eqn:Ha.
  - rewrite (mintProduct_sends _ _ _ _ Ha), (transferProduct_sends _ _ _ _ Ha).
    split; apply send_one_transaction.
  - unfold mintProduct, transferProduct. rewrite Ha.
    split; exists []; cbn [throw fst snd]; rewrite app_nil_r; repeat split; simpl; lia.
Qed.

End Sending.




(** ** Queries, whatever the node answers *)

Section Reading.
Context `{AptosSDK}.

Variable this : SupplyChain.
Variable productId : jsstring.
Variable st : State.

Lemma nth_error_nonempty {A} (l : list A) (n : nat) (a : A) :
  nth_error l n = Some a -> l <> [].
Proof. intros E ->. destruct n; discriminate E. Qed.

(** X1.  Write, then read.  When the node answers the view with a
    product whose fourth value is the metadata argument [mintProduct]
    sends for [m], [getProductInfo] returns the
    product with the first three values and the fifth in their places and
    with [m] decoded: the strings as they were, an absent optional field
    absent, the entries of [additionalInfo] as they were and in their
    order, and the date as its ISO string ([null] for an invalid date).
    This holds for all metadata a JavaScript program can hold. *)
Theorem minted_metadata_comes_back (m : ProductMetadata) (response : list MoveValue)
    (w : World) :
  valid_metadata m = true ->
  view (client_nodeUrl (client this)) (info_request productId) (world st)
  = (Return (Some response), w) ->
  nth_error response 3 = Some (MoveString (js "0x" ++ serializeMetadata m)) ->
  getProductInfo this productId st
  = (Return (Some {| id := nth_error response 0;
                     manufacturer := nth_error response 1;
                     currentOwner := nth_error response 2;
                     metadata := ProductMetadata_decoded m;
                     history := nth_error response 4 |}),
     after_view st productId w []).
Proof.
  intros V E N.
  apply (getProductInfo_found this productId st response w _ E).
  - exact (nth_error_nonempty _ _ _ N).
  - rewrite N. apply metadata_roundtrip, V.
Qed.

(** X2.  Whatever the node answers, the metadata of a product that
    [getProductInfo] returns holds no [Date] object, although
    [ProductMetadata] declares [dateManufactured: Date]; so it is never
    the object that was given to [mintProduct], whatever that was. *)
Theorem queried_metadata_has_no_Date (info : ProductInfo) (st' : State) :
  getProductInfo this productId st = (Return (Some info), st') ->
  has_Date (metadata info) = false /\
  forall m : ProductMetadata, metadata info <> ProductMetadata_value m.
Proof.
  intros E.
  assert (D : has_Date (metadata info) = false).
  { destruct (view (client_nodeUrl (client this)) (info_request productId) (world st))
      as [[r|e] w] eqn:V.
    - destruct r as [[|x response]|].
      + rewrite (getProductInfo_nothing _ _ _ _ _ V) in E by now right. discriminate E.
      + destruct (deserializeMetadata (nth_error (x :: response) 3)) as [v|e] eqn:P.
        * rewrite (getProductInfo_found _ _ _ _ _ _ V) in E by (discriminate || exact P).
          injection E as <- _. cbn [metadata].
          unfold deserializeMetadata in P.
          destruct (toString (nth_error (x :: response) 3)); [|discriminate P].
          apply (JSON_parse_no_Date _ _ P).
        * rewrite (getProductInfo_malformed _ _ _ _ _ _ V) in E by (discriminate || exact P).
          discriminate E.
      + rewrite (getProductInfo_nothing _ _ _ _ _ V) in E by now left. discriminate E.
    - rewrite (getProductInfo_view_throws _ _ _ _ _ V) in E. discriminate E. }
  split; [exact D|].
  intros m Em. rewrite Em in D.
  unfold ProductMetadata_value in D. cbn [has_Date app existsb snd] in D.
  rewrite !orb_true_r in D. discriminate D.
Qed.

(** X8.  An answer of one, two or three values has no metadata:
    [getProductInfo] reads [undefined] in the fourth place, the call of
    [toString] on it is a [TypeError], and the query logs it and returns
    [null], as for a product that is not there. *)
Theorem short_answer_is_null (response : list MoveValue) (w : World) :
  view (client_nodeUrl (client this)) (info_request productId) (world st)
  = (Return (Some response), w) ->
  response <> [] ->
  (List.length response <= 3)%nat ->
  getProductInfo this productId st
  = (Return None, after_view st productId w [Call_console_error TypeError]).
Proof.
  intros E Hne L.
  apply (getProductInfo_malformed this productId st response w TypeError E Hne).
  assert (N : nth_error response 3 = None) by (apply nth_error_None; exact L).
  rewrite N. reflexivity.
Qed.

(** X9.  [verifyProduct] and [checkOnChainExist] agree.  When
    [verifyProduct] returns, its [exists] is what [checkOnChainExist]
    returns on the same state, and both leave the same state.  When
    [verifyProduct] throws, it throws a [TypeError] (the product came
    without a history), and [checkOnChainExist] answers [true]. *)
Theorem verify_agrees_with_exists (expectedManufacturer : jsstring) :
  (forall r st',
      verifyProduct this productId expectedManufacturer st = (Return r, st') ->
      checkOnChainExist this productId st = (Return (exists_ r), st')) /\
  (forall e st',
      verifyProduct this productId expectedManufacturer st = (Throw e, st') ->
      e = TypeError /\
      checkOnChainExist this productId st = (Return true, st')).
Proof.
  destruct (getProductInfo_returns this productId st) as (info & st1 & E).
  unfold verifyProduct, checkOnChainExist, bind, lift, ret. rewrite E.
  destruct info as [info|].
  - destruct (history info) as [[n|b|s|l|f]|]; cbn [get_length];
      (split; [intros r st' [= <- <-]; reflexivity | intros e st' [=]]);
      subst; split; reflexivity.
  - split; [intros r st' [= <- <-]; reflexivity | intros e st' [=]].
Qed.

(** X10.  The three queries only read.  [checkOnChainExist] and
    [verifyProduct] leave the state [getProductInfo] leaves: the world
    after one view of [get_product_info] on the product id, and a trace
    that has grown by that view and, when an error was caught, one line on
    the console.  No transaction is built, signed or submitted, with or
    without a company account. *)
Theorem queries_only_view (expectedManufacturer : jsstring) :
  snd (checkOnChainExist this productId st) = snd (getProductInfo this productId st) /\
  snd (verifyProduct this productId expectedManufacturer st)
  = snd (getProductInfo this productId st) /\
  world (snd (getProductInfo this productId st))
  = snd (view (client_nodeUrl (client this))
           {| view_function := js "0x1::SupplyChain::product_manager::get_product_info";
              view_type_arguments := [];
              view_arguments := [productId] |} (world st)) /\
  exists more,
    trace (snd (getProductInfo this productId st))
    = trace st
      ++ Call_view {| view_function := js "0x1::SupplyChain::product_manager::get_product_info";
                      view_type_arguments := [];
                      view_arguments := [productId] |} :: more /\
    (more = [] \/ exists e, more = [Call_console_error e]) /\
    filter is_transaction_call (trace (snd (getProductInfo this productId st)))
    = filter is_transaction_call (trace st).
Proof.
  destruct (getProductInfo_returns this productId st) as (info & st1 & E).
  destruct (getProductInfo_effect this productId st info st1 E) as [W T].
  split; [|split; [|split]].
  - unfold checkOnChainExist, bind, ret. rewrite E. reflexivity.
  - unfold verifyProduct, bind, lift, ret. rewrite E.
    destruct info as [info|]; [|reflexivity].
    destruct (get_length (history info)); reflexivity.
  - rewrite E. exact W.
  - rewrite E. cbn [snd].
    change {| view_function := js "0x1::SupplyChain::product_manager::get_product_info";
              view_type_arguments := [];
              view_arguments := [productId] |} with (info_request productId).
    destruct T as [T | (e & _ & T)]; rewrite T.
    + exists []. split; [reflexivity|]. split; [now left|].
      rewrite filter_app. cbn [filter is_transaction_call]. apply app_nil_r.
    + exists [Call_console_error e]. split; [reflexivity|]. split; [right; now exists e|].
      rewrite filter_app. cbn [filter is_transaction_call]. apply app_nil_r.
Qed.

End Reading.

Lemma minted_metadata_comes_back_witness :
  getProductInfo (supplyChain None) (js "PROD-001") (stub_initial one_product)
  = (Return (Some {| id := Some (MoveString (js "PROD-001"));
                     manufacturer := Some (MoveString (js "0xa"));
                     currentOwner := Some (MoveString (js "0xb"));
                     metadata := ProductMetadata_decoded shoe;
                     history := Some (MoveVector [MoveString (js "0xb")]) |}),
     after_view (stub_initial one_product) (js "PROD-001") tt []).
Proof.
  apply (minted_metadata_comes_back (supplyChain None) (js "PROD-001")
           (stub_initial one_product) shoe
           (product_answer (js "PROD-001") (js "0xa") (js "0xb")
              (js "0x" ++ serializeMetadata shoe) [js "0xb"]) tt); reflexivity.
Defined.

Lemma queried_metadata_has_no_Date_witness :
  has_Date (ProductMetadata_decoded shoe) = false /\
  forall m : ProductMetadata, ProductMetadata_decoded shoe <> ProductMetadata_value m.
Proof.
  apply (queried_metadata_has_no_Date (supplyChain None) (js "PROD-001")
           (stub_initial one_product)
           {| id := Some (MoveString (js "PROD-001"));
              manufacturer := Some (MoveString (js "0xa"));
              currentOwner := Some (MoveString (js "0xb"));
              metadata := ProductMetadata_decoded shoe;
              history := Some (MoveVector [MoveString (js "0xb")]) |}
           (after_view (stub_initial one_product) (js "PROD-001") tt [])).
  vm_compute. reflexivity.
Defined.

Lemma short_answer_is_null_witness :
  getProductInfo (supplyChain None) (js "PROD-001") (stub_initial three_values)
  = (Return None,
     after_view (stub_initial three_values) (js "PROD-001") tt
       [Call_console_error TypeError]).
Proof.
  apply (short_answer_is_null (supplyChain None) (js "PROD-001") (stub_initial three_values)
           [MoveString (js "PROD-001"); MoveString (js "0xa"); MoveString (js "0xa")] tt).
  - reflexivity.
  - discriminate.
  - simpl. lia.
Defined.

Lemma verify_agrees_with_exists_witness :
  checkOnChainExist (supplyChain None) (js "PROD-001") (stub_initial one_product)
  = (Return true, after_view (stub_initial one_product) (js "PROD-001") tt [])
  /\
  (TypeError = TypeError /\
   checkOnChainExist (supplyChain None) (js "PROD-001") (stub_initial four_values)
   = (Return true, after_view (stub_initial four_values) (js "PROD-001") tt [])).
Proof.
  split.
  - apply (proj1 (verify_agrees_with_exists (supplyChain None) (js "PROD-001")
                    (stub_initial one_product) (js "0xa"))
             {| exists_ := true; isAuthentic := true;
                verified_manufacturer := Some (Some (MoveString (js "0xa")));
                verified_currentOwner := Some (Some (MoveString (js "0xb")));
                transferCount := Some (Some (MoveNumber 1)) |}).
    vm_compute. reflexivity.
  - apply (proj2 (verify_agrees_with_exists (supplyChain None) (js "PROD-001")
                    (stub_initial four_values) (js "0xa"))).
    vm_compute. reflexivity.
Defined.

(** ** Payloads and metadata *)

Lemma map_entries_inj (r1 r2 : list (jsstring * jsstring)) :
  map (fun kv => (fst kv, JString (snd kv))) r1
  = map (fun kv => (fst kv, JString (snd kv))) r2 ->
  r1 = r2.
Proof.
  revert r2. induction r1 as [|[k v] r1 IH]; intros [|[k' v'] r2]; simpl; try discriminate.
  - reflexivity.
  - intros [= -> -> E]. f_equal. apply IH, E.
Qed.

Lemma Date_decoded_inj (d1 d2 : Date) :
  Date_decoded d1 = Date_decoded d2 -> Date_toJSON d1 = Date_toJSON d2.
Proof.
  unfold Date_decoded.
  destruct (Date_toJSON d1), (Date_toJSON d2); try discriminate; [|reflexivity].
  intros [= ->]. reflexivity.
Qed.

Lemma decoded_determines (m1 m2 : ProductMetadata) :
  ProductMetadata_decoded m1 = ProductMetadata_decoded m2 ->
  name m1 = name m2 /\ description m1 = description m2 /\
  Date_toJSON (dateManufactured m1) = Date_toJSON (dateManufactured m2) /\
  ipfsLink m1 = ipfsLink m2 /\ additionalInfo m1 = additionalInfo m2.
Proof.
  unfold ProductMetadata_decoded.
  destruct (ipfsLink m1) as [l1|], (ipfsLink m2) as [l2|],
    (additionalInfo m1) as [r1|], (additionalInfo m2) as [r2|];
    cbn [optional_property app]; intros E; injection E; clear E; intros;
    try discriminate; subst;
    repeat match goal with
      | H : map _ _ = map _ _ |- _ => apply map_entries_inj in H; subst
      | H : Date_decoded _ = Date_decoded _ |- _ => apply Date_decoded_inj in H
      end;
    repeat split; try assumption; try reflexivity; try congruence.
Qed.

(** X3.  The ledger keeps the metadata apart: two metadata that differ
    in the name, the description, the IPFS link, the additional
    information or the ISO form of the date are minted with different
    payloads. *)
Theorem different_metadata_different_payload (m1 m2 : ProductMetadata) :
  valid_metadata m1 = true ->
  valid_metadata m2 = true ->
  (name m1, description m1, Date_toJSON (dateManufactured m1), ipfsLink m1, additionalInfo m1)
  <> (name m2, description m2, Date_toJSON (dateManufactured m2), ipfsLink m2,
      additionalInfo m2) ->
  serializeMetadata m1 <> serializeMetadata m2.
Proof.
  intros V1 V2 D E. apply D.
  pose proof (metadata_roundtrip m1 V1) as R1.
  pose proof (metadata_roundtrip m2 V2) as R2.
  rewrite E, R2 in R1.
  assert (R : ProductMetadata_decoded m1 = ProductMetadata_decoded m2) by congruence.
  destruct (decoded_determines m1 m2 R) as (-> & -> & -> & -> & ->).
  reflexivity.
Qed.

Lemma different_metadata_different_payload_witness :
  serializeMetadata shoe
  <> serializeMetadata {| name := js "Shoe"; description := js "Right";
                          dateManufactured := Some 0;
                          ipfsLink := None; additionalInfo := None |}.
Proof.
  apply different_metadata_different_payload; [reflexivity | reflexivity | discriminate].
Defined.

(** ** The private key *)

Lemma hex_digit_no_x (n : Z) : 0 <= n < 16 -> negb (hex_digit n =? 120) = true.
Proof.
  intros Hn. apply negb_true_iff, Z.eqb_neq. unfold hex_digit.
  destruct (n <? 10); lia.
Qed.

Lemma hex_no_x (b : Buffer) : Forall is_byte b -> no_x (Buffer_toString_hex b) = true.
Proof.
  induction 1 as [|x b Hx _ IH]; [reflexivity|].
  unfold is_byte in Hx.
  cbn [Buffer_toString_hex flat_map app]. fold (Buffer_toString_hex b).
  unfold no_x in *. cbn [forallb]. rewrite IH.
  rewrite !hex_digit_no_x; [reflexivity | arith_bits; div_lia | arith_bits; div_lia].
Qed.

Lemma replace_first_no_x (s : jsstring) :
  no_x s = true -> replace_first (js "0x") [] s = s.
Proof.
  induction s as [|c s IH]; [reflexivity|].
  intros N. unfold no_x in N. cbn [forallb] in N.
  apply andb_prop in N as [_ N].
  assert (S : startsWith (js "0x") (c :: s) = false).
  { destruct s as [|d s].
    - change (startsWith (js "0x") [c]) with ((48 =? c) && false). apply andb_false_r.
    - change (startsWith (js "0x") (c :: d :: s)) with ((48 =? c) && ((120 =? d) && true)).
      cbn [forallb] in N. apply andb_prop in N as [Nd _].
      apply negb_true_iff in Nd. rewrite Z.eqb_sym in Nd.
      rewrite Nd. apply andb_false_r. }
  cbn [replace_first]. rewrite S. f_equal. apply IH, N.
Qed.

(** X11.  The private key is read as hex, with or without [0x] in
    front: both spellings of the same key bytes give the account of
    exactly these bytes (or the error of the account's constructor). *)
Theorem key_spellings `{AptosSDK} (node : jsstring) (key : Buffer) :
  Forall is_byte key ->
  key <> [] ->
  let built :=
    match new_AptosAccount key with
    | Return account =>
        Return {| client := {| client_nodeUrl := node |}; companyAccount := Some account |}
    | Throw e => Throw e
    end in
  new_SupplyChain node (Some (js "0x" ++ Buffer_toString_hex key)) = built /\
  new_SupplyChain node (Some (Buffer_toString_hex key)) = built.
Proof.
  intros B Hne built. split.
  - unfold new_SupplyChain.
    change (replace_first (js "0x") [] (js "0x" ++ Buffer_toString_hex key))
      with (Buffer_toString_hex key).
    cbn [app js]. rewrite hex_roundtrip by exact B. reflexivity.
  - unfold new_SupplyChain.
    destruct (Buffer_toString_hex key) as [|c h] eqn:Hx.
    + destruct key; [congruence | discriminate Hx].
    + rewrite <- Hx. rewrite replace_first_no_x by (apply hex_no_x, B).
      rewrite hex_roundtrip by exact B. reflexivity.
Qed.

Lemma key_spellings_witness :
  new_SupplyChain (js "node") (Some (js "0x" ++ Buffer_toString_hex company_key))
  = Return (stub_company no_product company_key) /\
  new_SupplyChain (js "node") (Some (Buffer_toString_hex company_key))
  = Return (stub_company no_product company_key).
Proof.
  apply (key_spellings (H := stub no_product) (js "node") company_key).
  - repeat constructor; unfold is_byte; lia.
  - discriminate.
Defined.

(** ** QR data, one product from another *)

(** X12.  Under one app URL, given or not, different product ids get
    different QR data. *)
Theorem qr_data_injective (x y : jsstring) (dAppUrl : option jsstring) :
  x <> y ->
  generateProductQrData x dAppUrl <> generateProductQrData y dAppUrl.
Proof.
  intros D E. apply D. unfold generateProductQrData in E.
  destruct dAppUrl as [[|c u]|].
  - apply app_inv_head in E. exact E.
  - apply app_inv_head in E. apply app_inv_head in E. exact E.
  - apply app_inv_head in E. exact E.
Qed.

Lemma qr_data_injective_witness :
  generateProductQrData (js "123") (Some (js "https://example.com"))
  <> generateProductQrData (js "124") (Some (js "https://example.com")).
Proof.
  apply qr_data_injective. discriminate.
Defined.

(** ** The database configuration *)

(** X13.  The database configuration exists exactly when both
    [DATABASE_URL] and [DATABASE_AUTH_TOKEN] are set and not empty, and
    its credentials are then these two values as they are.  Otherwise
    loading throws, and the URL is looked at first: without it the error
    is "DATABASE_URL is not set" whatever the token. *)
Theorem config_needs_both_variables (DATABASE_URL DATABASE_AUTH_TOKEN : option jsstring) :
  (forall c,
      Drizzle.config DATABASE_URL DATABASE_AUTH_TOKEN = Return c <->
      exists database_url token,
        DATABASE_URL = Some database_url /\ database_url <> [] /\
        DATABASE_AUTH_TOKEN = Some token /\ token <> [] /\
        c = {| Drizzle.schema := js "./src/db/schema";
               Drizzle.out := js "./src/db/migrations";
               Drizzle.dialect := js "turso";
               Drizzle.dbCredentials :=
                 {| Drizzle.url := database_url; Drizzle.authToken := token |} |}) /\
  (Drizzle.config DATABASE_URL DATABASE_AUTH_TOKEN
   = Throw (Error (js "DATABASE_URL is not set")) <->
   DATABASE_URL = None \/ DATABASE_URL = Some []) /\
  (Drizzle.config DATABASE_URL DATABASE_AUTH_TOKEN
   = Throw (Error (js "DATABASE_AUTH_TOKEN is not set")) <->
   (exists database_url, DATABASE_URL = Some database_url /\ database_url <> []) /\
   (DATABASE_AUTH_TOKEN = None \/ DATABASE_AUTH_TOKEN = Some [])).
Proof.
  unfold Drizzle.config, Drizzle.defineConfig. split; [|split].
  - intros c. split.
    + destruct DATABASE_URL as [[|a u]|]; try discriminate.
      destruct DATABASE_AUTH_TOKEN as [[|b t]|]; try discriminate.
      intros [= <-]. exists (a :: u), (b :: t). repeat split; discriminate.
    + intros (u & t & -> & Hu & -> & Ht & ->).
      destruct u; [congruence|]. destruct t; [congruence|]. reflexivity.
  - split.
    + destruct DATABASE_URL as [[|a u]|]; [now right | | now left].
      destruct DATABASE_AUTH_TOKEN as [[|b t]|]; discriminate.
    + intros [-> | ->]; reflexivity.
  - split.
    + destruct DATABASE_URL as [[|a u]|]; try discriminate.
      destruct DATABASE_AUTH_TOKEN as [[|b t]|]; try discriminate; intros _.
      * split; [exists (a :: u); split; [reflexivity | discriminate] | now right].
      * split; [exists (a :: u); split; [reflexivity | discriminate] | now left].
    + intros [(u & -> & Hu) [-> | ->]]; (destruct u; [congruence | reflexivity]).
Qed.

(** ** The encoding of the ledger *)

Lemma Buffer_from_hex_tail (b : Buffer) (tail : jsstring) :
  Forall is_byte b ->
  Buffer_from_hex tail = [] ->
  Buffer_from_hex (Buffer_toString_hex b ++ tail) = b.
Proof.
  intros B T. induction B as [|x b Hx _ IH]; [exact T|].
  unfold is_byte in Hx.
  cbn [Buffer_toString_hex flat_map app Buffer_from_hex].
  fold (Buffer_toString_hex b).
  assert (H1 : 0 <= Z.shiftr x 4 < 16) by (arith_bits; div_lia).
  assert (H2 : 0 <= Z.land x 15 < 16) by (arith_bits; div_lia).
  rewrite (hex_digit_low _ H1), (hex_digit_low _ H2).
  rewrite (unhex_hex_digit _ H1), (unhex_hex_digit _ H2), IH.
  f_equal. rewrite lor_shiftl_low by (change (2 ^ 4) with 16; lia).
  arith_bits. div_lia.
Qed.

(** X14.  Hex and UTF-8 are transparent, and the hex is not checked.
    For every text whose surrogates come in pairs, stored as UTF-8 in hex
    after [0x], what [getProductInfo] makes of the fourth value is what
    [JSON.parse] makes of the text: the same value, whatever its shape, or
    the same [SyntaxError].  This is so also when the hex is followed by
    a tail that [Buffer.from] decodes to no byte (a single character, or
    one that begins with two characters whose low bytes are not both hex
    digits): the tail is dropped without an error. *)
Theorem ledger_encoding_is_transparent (text tail : jsstring) :
  well_formed text = true ->
  Buffer_from_hex tail = [] ->
  deserializeMetadata
    (Some (MoveString (js "0x" ++ Buffer_toString_hex (Buffer_from_utf8 text) ++ tail)))
  = JSON_parse text.
Proof.
  intros W T.
  destruct (utf8_roundtrip text W) as [D B].
  unfold deserializeMetadata. cbn [toString MoveValue_toString].
  change (substring_from 2 (js "0x" ++ ?h)) with h.
  rewrite Buffer_from_hex_tail by assumption.
  rewrite D. reflexivity.
Qed.

Lemma ledger_encoding_is_transparent_witness :
  deserializeMetadata
    (Some (MoveString (js "0x" ++ Buffer_toString_hex (Buffer_from_utf8 (js "[true]")) ++ js "zz")))
  = JSON_parse (js "[true]").
Proof.
  apply ledger_encoding_is_transparent; reflexivity.
Defined.
